(** * The movie-review model runner of the DIANNA text tutorials

    Both tutorial notebooks ([tutorials/lime_text.ipynb] and
    [tutorials/rise_text.ipynb]) define a class [MovieReviewsModelRunner]
    whose [__call__] turns raw sentences into a two-column score matrix.
    This development embeds both versions of [__call__] and states the
    properties of the specification about them.

    Conventions of the embedding.
    - Python [int] is [Z]; the exact-arithmetic reading of a Python
      [float] is [R], and an array holds real numbers.  The dtype of an
      array and the rounding of its arithmetic are the subject of the
      module [floating] only, which redoes the last lines of [__call__]
      with IEEE 754 numbers.
    - [self.vocab.stoi] is a plain [dict] from token to index: a
      [gmap string Z].  Subscripting a missing key raises [KeyError].
    - The tokenizer and the scoring function are callables supplied from
      outside.  A Python callable may answer differently on every call, so
      each one is modelled as a function of the arguments of its own
      earlier calls and of the present argument.  Both always answer here:
      [__call__] has no [try], so an exception raised inside one of them
      would leave [__call__] as it is, and no statement below is about
      such a call.
    - A call runs in a [world]: the adapter object [self] together with a
      log of every invocation of the tokenizer, of the vocabulary and of
      the scoring function.  Exceptions are explicit outcomes. *)

From Stdlib Require Import ZArith List Lia Reals Lra.
From Stdlib Require Import QArith.
From Stdlib Require SpecFloat.
From stdpp Require Import base option list gmap strings.

Local Open Scope string_scope.
Local Open Scope list_scope.

(** ** Outcomes and exceptions *)

Inductive exn : Type :=
  | KeyError (key : string)
  | ValueError
  | IndexError
  | TypeError.

Inductive outcome (A : Type) : Type :=
  | Ok (a : A)
  | Raise (e : exn).

Arguments Ok {A} a.
Arguments Raise {A} e.

(** ** Arrays

    The two-dimensional arrays of the program: the logits returned by the
    scoring function and the score matrix returned by [__call__].  The
    shape is kept next to the rows, so that a 0×2 array differs from a
    0×1 array.  A one-dimensional array is a [list R]. *)

Record ndarray : Type := NdArray {
  shape : nat * nat;
  rows : list (list R)
}.

(** [np.array(l)] for a Python list [l] of one-dimensional arrays; the
    lengths must agree.  (The program only builds such an array from the
    two-element list [[negativity, positivity]].) *)
Definition np_array (l : list (list R)) : outcome ndarray :=
  let n := length (hd [] l) in
  if forallb (fun r => Nat.eqb (length r) n) l
  then Ok (NdArray (length l, n) l)
  else Raise ValueError.

(** The [j]-th column of the rows. *)
Definition column (j : nat) (rs : list (list R)) : list R :=
  map (fun r => nth j r 0%R) rs.

(** [np.transpose(a)] of a two-dimensional array. *)
Definition transpose (a : ndarray) : ndarray :=
  NdArray (snd (shape a), fst (shape a))
          (map (fun j => column j (rows a)) (seq 0 (snd (shape a)))).

(** [np.transpose(l)] of a Python list: converted to an array first. *)
Definition np_transpose (l : list (list R)) : outcome ndarray :=
  match np_array l with
  | Ok a => Ok (transpose a)
  | Raise e => Raise e
  end.

(** [np.apply_along_axis(f, 1, a)]: [f] is applied to every row.  NumPy
    refuses an array without rows ("Cannot apply_along_axis when any
    iteration dimensions are 0"). *)
Definition np_apply_along_axis_1 (f : list R -> list R) (a : ndarray)
  : outcome ndarray :=
  match fst (shape a) with
  | O => Raise ValueError
  | S _ =>
      let rs := map f (rows a) in
      Ok (NdArray (fst (shape a), length (hd [] rs)) rs)
  end.

(** [a[:, j]]: column [j] as a one-dimensional array. *)
Definition np_index_column (a : ndarray) (j : nat) : outcome (list R) :=
  if Nat.ltb j (snd (shape a)) then Ok (column j (rows a))
  else Raise IndexError.

(** [float(a)]: only an array with exactly one element converts. *)
Definition np_float (a : ndarray) : outcome R :=
  match rows a with
  | [[x]] => Ok x
  | _ => Raise TypeError
  end.

(** [1 - a] on a one-dimensional array. *)
Definition one_minus (a : list R) : list R :=
  map (fun p => (1 - p)%R) a.

(** The array is what its shape says. *)
Definition well_shaped (a : ndarray) : Prop :=
  length (rows a) = fst (shape a) /\
  Forall (fun r => length r = snd (shape a)) (rows a).

(** ** The adapter object and the world of a call *)

(** The four attributes that [__init__] sets.  [vocab] stands for
    [self.vocab.stoi], the one part of the vocabulary object that
    [__call__] looks at.  [run_model] and [tokenizer] take the arguments
    of their earlier calls, oldest first, before the present argument. *)
Record MovieReviewsModelRunner : Type := {
  run_model : list (list (list Z)) -> list (list Z) -> ndarray;
  vocab : gmap string Z;
  max_filter_size : Z;
  tokenizer : list string -> string -> list string
}.

(** An access to [self.vocab.stoi]: a membership test or a subscript. *)
Inductive vocab_access : Type :=
  | Contains (token : string)
  | GetItem (token : string).

Record world : Type := World {
  self : MovieReviewsModelRunner;
  tokenizer_calls : list string;
  vocab_accesses : list vocab_access;
  run_model_calls : list (list (list Z))
}.

(** Computations: read and extend the world, return or raise. *)
Definition M (A : Type) : Type := world -> outcome A * world.

#[export] Instance M_ret : MRet M := fun A (a : A) w => (Ok a, w).

#[export] Instance M_bind : MBind M := fun A B (f : A -> M B) (m : M A) w =>
  match m w with
  | (Ok a, w') => f a w'
  | (Raise e, w') => (Raise e, w')
  end.

(** A step that does not touch the world (the NumPy operations). *)
Definition lift {A : Type} (o : outcome A) : M A := fun w => (o, w).

(** [self.max_filter_size] *)
Definition get_max_filter_size : M Z :=
  fun w => (Ok (max_filter_size (self w)), w).

(** [self.tokenizer(sentence)] *)
Definition call_tokenizer (sentence : string) : M (list string) :=
  fun w =>
    (Ok (tokenizer (self w) (tokenizer_calls w) sentence),
     World (self w) (tokenizer_calls w ++ [sentence])
           (vocab_accesses w) (run_model_calls w)).

(** [token in self.vocab.stoi] *)
Definition stoi_contains (token : string) : M bool :=
  fun w =>
    (Ok (bool_decide (is_Some (vocab (self w) !! token))),
     World (self w) (tokenizer_calls w)
           (vocab_accesses w ++ [Contains token]) (run_model_calls w)).

(** [self.vocab.stoi[token]] *)
Definition stoi_getitem (token : string) : M Z :=
  fun w =>
    (match vocab (self w) !! token with
     | Some i => Ok i
     | None => Raise (KeyError token)
     end,
     World (self w) (tokenizer_calls w)
           (vocab_accesses w ++ [GetItem token]) (run_model_calls w)).

(** [self.run_model(batch)] *)
Definition call_run_model (batch : list (list Z)) : M ndarray :=
  fun w =>
    (Ok (run_model (self w) (run_model_calls w) batch),
     World (self w) (tokenizer_calls w) (vocab_accesses w)
           (run_model_calls w ++ [batch])).

(** ** The body of [__call__] *)

(** [sentences] is either one [str] or a sequence of them. *)
Inductive sentences_arg : Type :=
  | Str (s : string)
  | Seq (l : list string).

(** [if isinstance(sentences, str): sentences = [sentences]] *)
Definition ensure_batch_axis (sentences : sentences_arg) : list string :=
  match sentences with
  | Str s => [s]
  | Seq l => l
  end.

(** [if len(tokens) < self.max_filter_size:
        tokens += ['<pad>'] * (self.max_filter_size - len(tokens))] *)
Definition pad_tokens (mfs : Z) (tokens : list string) : list string :=
  if (Z.of_nat (length tokens) <? mfs)%Z
  then tokens ++ replicate (Z.to_nat (mfs - Z.of_nat (length tokens))) "<pad>"
  else tokens.

(** [[self.vocab.stoi[token] if token in self.vocab.stoi
      else self.vocab.stoi['<unk>'] for token in tokens]] *)
Fixpoint numericalize (tokens : list string) : M (list Z) :=
  match tokens with
  | [] => mret []
  | token :: rest =>
      known ← stoi_contains token;
      i ← (if known : bool then stoi_getitem token else stoi_getitem "<unk>");
      ids ← numericalize rest;
      mret (i :: ids)
  end.

(** The first half of the loop body, which the two notebooks share word
    for word: tokenize, pad to the minimum length, numericalize. *)
Definition tokens_numerical (sentence : string) : M (list Z) :=
  tokens ← call_tokenizer sentence;
  mfs ← get_max_filter_size;
  numericalize (pad_tokens mfs tokens).

(** [from scipy.special import expit as sigmoid]: a function on floats
    that NumPy applies to an array element by element.  It is a parameter
    of everything below. *)
Section Sigmoid.

Variable sigmoid : R -> R.

Definition sigmoid_1d (a : list R) : list R := map sigmoid a.

Definition sigmoid_2d (a : ndarray) : ndarray :=
  NdArray (shape a) (map sigmoid_1d (rows a)).

End Sigmoid.

(** The last three lines of both versions:
    [negativity = 1 - positivity;
     return np.transpose([negativity, positivity])] *)
Definition two_classes (positivity : list R) : M ndarray :=
  let negativity := one_minus positivity in
  lift (np_transpose [negativity; positivity]).

(** *** [tutorials/lime_text.ipynb]: one scoring call on the batch *)
Module lime_text.
Section Runner.

Variable sigmoid : R -> R.

(** [tokenized_sentences = []; for sentence in sentences: ...
     tokenized_sentences.append(tokens_numerical)] *)
Fixpoint loop (sentences : list string)
    (tokenized_sentences : list (list Z)) : M (list (list Z)) :=
  match sentences with
  | [] => mret tokenized_sentences
  | sentence :: rest =>
      nums ← tokens_numerical sentence;
      loop rest (tokenized_sentences ++ [nums])
  end.

Definition __call__ (sentences : sentences_arg) : M ndarray :=
  let sentences := ensure_batch_axis sentences in
  tokenized_sentences ← loop sentences [];
  logits ← call_run_model tokenized_sentences;
  pred ← lift (np_apply_along_axis_1 (sigmoid_1d sigmoid) logits);
  positivity ← lift (np_index_column pred 0);
  two_classes positivity.

End Runner.
End lime_text.

(** *** [tutorials/rise_text.ipynb]: one scoring call per sentence *)
Module rise_text.
Section Runner.

Variable sigmoid : R -> R.

(** [output = []; for sentence in sentences: ...
     pred = float(sigmoid(self.run_model([tokens_numerical])));
     output.append(pred)] *)
Fixpoint loop (sentences : list string) (output : list R) : M (list R) :=
  match sentences with
  | [] => mret output
  | sentence :: rest =>
      nums ← tokens_numerical sentence;
      logits ← call_run_model [nums];
      pred ← lift (np_float (sigmoid_2d sigmoid logits));
      loop rest (output ++ [pred])
  end.

(** [positivity = np.array(output)] keeps the list as a one-dimensional
    array. *)
Definition __call__ (sentences : sentences_arg) : M ndarray :=
  let sentences := ensure_batch_axis sentences in
  output ← loop sentences [];
  two_classes output.

End Runner.
End rise_text.

(** ** Vocabulary of the statements *)

(** The index a token is meant to get: its own, or that of ['<unk>']. *)
Definition stoi_or_unk (v : gmap string Z) (token : string) : option Z :=
  match v !! token with
  | Some i => Some i
  | None => v !! "<unk>"
  end.

Fixpoint encode (v : gmap string Z) (tokens : list string)
  : option (list Z) :=
  match tokens with
  | [] => Some []
  | token :: rest =>
      match stoi_or_unk v token, encode v rest with
      | Some i, Some ids => Some (i :: ids)
      | _, _ => None
      end
  end.

(** The only way numericalization fails: ['<unk>'] itself is missing. *)
Definition encoded (o : option (list Z)) : outcome (list Z) :=
  match o with
  | Some ids => Ok ids
  | None => Raise (KeyError "<unk>")
  end.

(** What [tokens_numerical] makes of [sentence] when the tokenizer has
    been called on [history] before. *)
Definition numericalized (r : MovieReviewsModelRunner)
    (history : list string) (sentence : string) : option (list Z) :=
  encode (vocab r)
    (pad_tokens (max_filter_size r) (tokenizer r history sentence)).

(** [nums] is a numericalization of [sentence] by the adapter [r]. *)
Definition encodes (r : MovieReviewsModelRunner) (sentence : string)
    (nums : list Z) : Prop :=
  exists history, numericalized r history sentence = Some nums.

(** One row of the score matrix, from a positive-class probability. *)
Definition score_row (positivity : R) : list R :=
  [(1 - positivity)%R; positivity].

(** In the RISE notebook [positivity] is the score of [sentence]: the
    sigmoid of the one logit that the scoring function returned for a
    numericalization of that sentence alone. *)
Definition scored_alone (sigmoid : R -> R) (r : MovieReviewsModelRunner)
    (sentence : string) (positivity : R) : Prop :=
  exists nums history logit,
    encodes r sentence nums /\
    rows (run_model r history [nums]) = [[logit]] /\
    positivity = sigmoid logit.

(** Preconditions on the environment of the adapter. *)
Definition has_unk (r : MovieReviewsModelRunner) : Prop :=
  is_Some (vocab r !! "<unk>").

(** The scoring function answers a batch of N sequences with an N×1
    matrix of logits. *)
Definition returns_logit_column (r : MovieReviewsModelRunner) : Prop :=
  forall history batch, exists logits : list R,
    length logits = length batch /\
    run_model r history batch =
      NdArray (length batch, 1%nat) (map (fun l => [l]) logits).

(** The scoring function maps every numericalized sentence to one logit,
    whatever the rest of the batch and whatever it was called on before. *)
Definition scores_independently (r : MovieReviewsModelRunner)
    (logit : list Z -> R) : Prop :=
  forall history batch,
    run_model r history batch =
      NdArray (length batch, 1%nat) (map (fun nums => [logit nums]) batch).

(** A callable is deterministic when its answer depends on its argument
    alone, not on the calls made before. *)
Definition deterministic {A B : Type} (f : list A -> A -> B) : Prop :=
  forall history1 history2 x, f history1 x = f history2 x.

(** ** A concrete adapter, for examples *)

(** The logistic function that [scipy.special.expit] computes. *)
Definition expit (x : R) : R := (1 / (1 + exp (- x)))%R.

Definition demo_vocab : gmap string Z :=
  list_to_map [("<unk>", 0%Z); ("<pad>", 1%Z); ("a", 2%Z);
               ("good", 3%Z); ("film", 4%Z)].

Definition demo_logit (nums : list Z) : R := IZR (foldr Z.add 0%Z nums).

Definition demo_run_model (_ : list (list (list Z)))
    (batch : list (list Z)) : ndarray :=
  NdArray (length batch, 1%nat) (map (fun nums => [demo_logit nums]) batch).

(** Splits on white space, like the tokenizer does on plain words. *)
Definition demo_tokenizer (_ : list string) (sentence : string)
  : list string :=
  String.words sentence.

Definition demo_runner : MovieReviewsModelRunner :=
  {| run_model := demo_run_model;
     vocab := demo_vocab;
     max_filter_size := 5;
     tokenizer := demo_tokenizer |}.

Definition demo_world : world := World demo_runner [] [] [].

Definition demo_sentences : sentences_arg := Seq ["a good film"; "bad"].

(** ["a good film"] becomes [[2; 3; 4; 1; 1]], logit 11; ["bad"] becomes
    [[0; 1; 1; 1; 1]], logit 4. *)
Definition demo_scores : ndarray :=
  NdArray (2%nat, 2%nat)
          [[(1 - expit 11)%R; expit 11]; [(1 - expit 4)%R; expit 4]].

(** The same adapter later in its life: after other calls. *)
Definition demo_world_later : world :=
  World demo_runner ["once upon a time"] [Contains "once"] [[[0%Z]]].

(** A scoring function that is not deterministic: its logit counts the
    calls made before. *)
Definition counting_run_model (history : list (list (list Z)))
    (batch : list (list Z)) : ndarray :=
  NdArray (length batch, 1%nat)
          (map (fun _ => [INR (length history)]) batch).

Definition counting_world : world :=
  World {| run_model := counting_run_model;
           vocab := demo_vocab;
           max_filter_size := 5;
           tokenizer := demo_tokenizer |} [] [] [].

(** ** The rest of the class and of the notebooks *)

(** What [__init__] takes from the libraries the notebooks import:
    [utils.get_function] (the scoring function of a model file),
    [os.path.dirname], the [stoi] of the [Vectors] read from a word-vector
    file with a cache directory, and [get_tokenizer]. *)
Record libraries : Type := {
  get_function : string -> list (list (list Z)) -> list (list Z) -> ndarray;
  dirname : string -> string;
  Vectors : string -> string -> gmap string Z;
  get_tokenizer : string -> string -> list string -> string -> list string
}.

(** [def __init__(self, model, word_vectors, max_filter_size)] *)
Definition __init__ (lib : libraries) (model word_vectors : string)
    (max_filter_size : Z) : MovieReviewsModelRunner :=
  {| run_model := get_function lib model;
     vocab := Vectors lib word_vectors (dirname lib word_vectors);
     max_filter_size := max_filter_size;
     tokenizer := get_tokenizer lib "spacy" "en_core_web_sm" |}.

(** The cells around the class. *)
Definition model_path : string := "models/movie_review_model.onnx".
Definition word_vector_path : string := "data/movie_reviews_word_vectors.txt".
Definition labels : list string := ["negative"; "positive"].

(** [model_runner = MovieReviewsModelRunner(model_path, word_vector_path,
                                           max_filter_size=5)] *)
Definition model_runner (lib : libraries) : MovieReviewsModelRunner :=
  __init__ lib model_path word_vector_path 5.

(** [t.index(x)] on a tuple: the position of the first occurrence of [x],
    [ValueError] when there is none. *)
Fixpoint tuple_index (t : list string) (x : string) : outcome nat :=
  match t with
  | [] => Raise ValueError
  | y :: rest =>
      if bool_decide (y = x) then Ok 0%nat
      else match tuple_index rest x with
           | Ok i => Ok (S i)
           | Raise e => Raise e
           end
  end.

(** What the loops make of a batch, sentence after sentence: the tokenizer
    has seen [history] and then the sentences before. *)
Fixpoint numericalized_batch (r : MovieReviewsModelRunner)
    (history : list string) (sentences : list string)
  : option (list (list Z)) :=
  match sentences with
  | [] => Some []
  | sentence :: rest =>
      match numericalized r history sentence with
      | None => None
      | Some nums =>
          match numericalized_batch r (history ++ [sentence]) rest with
          | Some batch => Some (nums :: batch)
          | None => None
          end
      end
  end.

(** The post-processing of the LIME notebook,
    [pred = np.apply_along_axis(sigmoid, 1, logits); positivity = pred[:, 0];
     negativity = 1 - positivity; return np.transpose([negativity, positivity])],
    as a function of the logits. *)
Definition lime_scores (sigmoid : R -> R) (logits : ndarray) : outcome ndarray :=
  match np_apply_along_axis_1 (sigmoid_1d sigmoid) logits with
  | Ok pred =>
      match np_index_column pred 0 with
      | Ok positivity => np_transpose [one_minus positivity; positivity]
      | Raise e => Raise e
      end
  | Raise e => Raise e
  end.

(** The libraries of the concrete adapter. *)
Definition demo_libraries : libraries :=
  {| get_function := fun _ => demo_run_model;
     dirname := fun _ => "data";
     Vectors := fun _ _ => demo_vocab;
     get_tokenizer := fun _ _ => demo_tokenizer |}.

(** A scoring function that answers every batch with the same 3×2 matrix. *)
Definition three_rows_world : world :=
  World {| run_model := fun _ _ =>
             NdArray (3%nat, 2%nat) [[0; 7]; [1; 8]; [2; 9]]%R;
           vocab := demo_vocab;
           max_filter_size := 5;
           tokenizer := demo_tokenizer |} [] [] [].

(** A vocabulary without ['<pad>']. *)
Definition demo_world_without_pad : world :=
  World {| run_model := demo_run_model;
           vocab := delete "<pad>" demo_vocab;
           max_filter_size := 5;
           tokenizer := demo_tokenizer |} [] [] [].

(** ** The last lines in floating point

    Everywhere else in this development an array holds exact real
    numbers.  In the program an array has a dtype and its arithmetic
    rounds.  The two notebooks do not compute in the same one:
    - [lime_text]: [np.apply_along_axis(sigmoid, 1, logits)] has the dtype
      of the logits, and so have [positivity = pred[:, 0]] and
      [negativity = 1 - positivity];
    - [rise_text]: [float(...)] makes a Python [float], which is binary64,
      [np.array(output)] is an array of binary64, and
      [negativity = 1 - positivity] is computed in binary64.
    The definitions below are these lines with IEEE 754 numbers and
    round-to-nearest-even arithmetic. *)
Module floating.

Inductive dtype : Type := float32 | float64.

Definition prec (d : dtype) : Z :=
  match d with float32 => 24 | float64 => 53 end.

Definition emax (d : dtype) : Z :=
  match d with float32 => 128 | float64 => 1024 end.

(** The Python [int] 1 next to an array of dtype [d]. *)
Definition one (d : dtype) : SpecFloat.spec_float :=
  SpecFloat.SFone (prec d) (emax d).

(** [x - y] in dtype [d]. *)
Definition sub (d : dtype) (x y : SpecFloat.spec_float)
  : SpecFloat.spec_float :=
  SpecFloat.SFsub (prec d) (emax d) x y.

(** Conversion of a number to dtype [d]; from [float32] to [float64] it
    loses nothing. *)
Definition astype (d : dtype) (x : SpecFloat.spec_float)
  : SpecFloat.spec_float :=
  match x with
  | SpecFloat.S754_finite s m e =>
      SpecFloat.binary_normalize (prec d) (emax d)
        (if s then Zneg m else Zpos m) e s
  | _ => x
  end.

(** [lime_text], l.115-117, on [pred] of dtype [d]:
    [positivity = pred[:, 0]; negativity = 1 - positivity;
     return np.transpose([negativity, positivity])]. *)
Definition lime_rows (d : dtype) (pred : list (list SpecFloat.spec_float))
  : dtype * list (list SpecFloat.spec_float) :=
  let positivity := map (fun row => nth 0 row SpecFloat.S754_nan) pred in
  let negativity := map (sub d (one d)) positivity in
  (d, map (fun np => [fst np; snd np]) (combine negativity positivity)).

(** [rise_text], l.114-120, where [preds] are the single entries, of dtype
    [d], of the arrays [sigmoid(self.run_model([tokens_numerical]))] of the
    sentences: [output.append(float(...))]; [positivity = np.array(output)];
    [negativity = 1 - positivity];
    [return np.transpose([negativity, positivity])]. *)
Definition rise_rows (d : dtype) (preds : list SpecFloat.spec_float)
  : dtype * list (list SpecFloat.spec_float) :=
  let output := map (astype float64) preds in
  let positivity := output in
  let negativity := map (sub float64 (one float64)) positivity in
  (float64, map (fun np => [fst np; snd np]) (combine negativity positivity)).

(** The exact value of a finite number. *)
Definition value (x : SpecFloat.spec_float) : Q :=
  match x with
  | SpecFloat.S754_finite s m e =>
      (inject_Z (if s then Zneg m else Zpos m) * Qpower 2 e)%Q
  | _ => 0%Q
  end.

(** The binary32 number nearest to expit(-5) = 0.00669285...: what the
    sigmoid makes of a logit -5 of dtype [float32]. *)
Definition expit_of_minus_5 : SpecFloat.spec_float :=
  SpecFloat.S754_finite false 14372788 (-31).

End floating.

(** * Properties *)

(** ** Lists and pairs *)

Lemma Forall_map_all {A B : Type} (f : A -> B) (P : B -> Prop) (l : list A) :
  (forall x, P (f x)) -> Forall P (map f l).
Proof. intros H. induction l; simpl; constructor; auto. Qed.

Lemma Forall2_map_r_Forall {A B C : Type} (Q : A -> B -> Prop) (f : B -> C)
    (P : C -> Prop) (l : list A) (k : list B) :
  (forall x y, Q x y -> P (f y)) -> Forall2 Q l k -> Forall P (map f k).
Proof.
  intros H HQ. induction HQ; simpl; constructor; eauto.
Qed.

Lemma Forall2_map_r_all {A B : Type} (Q : A -> B -> Prop) (f : A -> B)
    (l : list A) :
  (forall x, Q x (f x)) -> Forall2 Q l (map f l).
Proof. intros H. induction l; simpl; constructor; auto. Qed.

Lemma Forall2_map_r_impl {A B C : Type} (Q : A -> B -> Prop)
    (Q' : A -> C -> Prop) (f : B -> C) (l : list A) (k : list B) :
  (forall x y, Q x y -> Q' x (f y)) -> Forall2 Q l k -> Forall2 Q' l (map f k).
Proof. intros H HQ. induction HQ; simpl; constructor; eauto. Qed.

Lemma outcome_and_world {A : Type} (run : outcome A * world) (o : outcome A) :
  fst run = o -> run = (o, snd run).
Proof. destruct run. simpl. now intros ->. Qed.

(** ** Arrays *)

Lemma columns_of_pair (g : R -> R) (l : list R) :
  map (fun j => column j [map g l; l]) (seq 0 (length l)) =
  map (fun p => [g p; p]) l.
Proof.
  induction l as [|p l IH]; simpl; [reflexivity|].
  f_equal. rewrite <- seq_shift, map_map. exact IH.
Qed.

Lemma np_transpose_pair (g : R -> R) (l : list R) :
  np_transpose [map g l; l] =
  Ok (NdArray (length l, 2%nat) (map (fun p => [g p; p]) l)).
Proof.
  unfold np_transpose, np_array. simpl hd. simpl forallb.
  rewrite length_map, Nat.eqb_refl. simpl.
  unfold transpose. simpl.
  do 2 f_equal. apply (columns_of_pair g l).
Qed.

Lemma two_classes_spec (positivity : list R) (w : world) :
  two_classes positivity w =
  (Ok (NdArray (length positivity, 2%nat) (map score_row positivity)), w).
Proof.
  unfold two_classes, lift, one_minus.
  now rewrite np_transpose_pair.
Qed.

Lemma score_row_range (p : R) :
  (0 <= p <= 1)%R ->
  exists negativity positivity,
    score_row p = [negativity; positivity] /\
    (0 <= negativity <= 1)%R /\ (0 <= positivity <= 1)%R /\
    (negativity + positivity = 1)%R /\ negativity = (1 - positivity)%R.
Proof.
  intros Hp. exists (1 - p)%R, p. unfold score_row.
  repeat split; lra.
Qed.

Lemma score_rows_well_shaped (positivity : list R) :
  well_shaped (NdArray (length positivity, 2%nat) (map score_row positivity)).
Proof.
  split; simpl.
  - apply length_map.
  - apply Forall_map_all. reflexivity.
Qed.

Lemma np_float_sigmoid_inv sigmoid (logits : ndarray) (p : R) :
  np_float (sigmoid_2d sigmoid logits) = Ok p ->
  exists logit, rows logits = [[logit]] /\ p = sigmoid logit.
Proof.
  unfold np_float, sigmoid_2d, sigmoid_1d. simpl.
  destruct (rows logits) as [|[|l [|]] [|]]; simpl; try discriminate.
  intros [= <-]. eauto.
Qed.

(** ** Computations *)

Lemma bind_Ok {A B : Type} (m : M A) (f : A -> M B) w a w' :
  m w = (Ok a, w') -> (m ≫= f) w = f a w'.
Proof. intros H. unfold mbind, M_bind. now rewrite H. Qed.

Lemma bind_Raise {A B : Type} (m : M A) (f : A -> M B) w e w' :
  m w = (Raise e, w') -> (m ≫= f) w = (Raise e, w').
Proof. intros H. unfold mbind, M_bind. now rewrite H. Qed.

Lemma bind_Ok_inv {A B : Type} (m : M A) (f : A -> M B) w b w2 :
  (m ≫= f) w = (Ok b, w2) ->
  exists a w1, m w = (Ok a, w1) /\ f a w1 = (Ok b, w2).
Proof.
  unfold mbind, M_bind. destruct (m w) as [[a|e] w1]; intros H.
  - now exists a, w1.
  - discriminate.
Qed.

(** ** Padding and numericalization *)

Lemma pad_tokens_length (mfs : Z) (tokens : list string) :
  Z.of_nat (length (pad_tokens mfs tokens)) =
  Z.max (Z.of_nat (length tokens)) mfs.
Proof.
  unfold pad_tokens. destruct (Z.ltb_spec (Z.of_nat (length tokens)) mfs).
  - rewrite length_app, length_replicate. lia.
  - lia.
Qed.

Lemma encode_has_unk (v : gmap string Z) (unk : Z) (tokens : list string) :
  v !! "<unk>" = Some unk ->
  encode v tokens = Some (map (fun token => default unk (v !! token)) tokens).
Proof.
  intros Hunk. induction tokens as [|token rest IH]; simpl; [reflexivity|].
  rewrite IH. unfold stoi_or_unk.
  destruct (v !! token); simpl; [reflexivity|]. now rewrite Hunk.
Qed.

(** The comprehension computes [encode], logs its accesses and leaves the
    rest of the world alone. *)
Lemma numericalize_spec (tokens : list string) (w : world) :
  exists log,
    numericalize tokens w =
    (encoded (encode (vocab (self w)) tokens),
     World (self w) (tokenizer_calls w) (vocab_accesses w ++ log)
           (run_model_calls w)).
Proof.
  revert w. induction tokens as [|token rest IH]; intros w.
  - exists []. simpl. rewrite app_nil_r. now destruct w.
  - simpl numericalize. unfold mbind at 1, M_bind at 1.
    unfold stoi_contains at 1. simpl encode. unfold stoi_or_unk.
    destruct (vocab (self w) !! token) as [i|] eqn:Htoken.
    + rewrite bool_decide_eq_true_2 by eauto.
      unfold mbind at 1, M_bind at 1, stoi_getitem at 1. simpl.
      rewrite Htoken.
      match goal with |- context [mbind _ (numericalize rest) ?w1] =>
        destruct (IH w1) as [log Hlog] end.
      unfold mbind, M_bind. rewrite Hlog. simpl.
      exists (Contains token :: GetItem token :: log).
      rewrite <- !app_assoc. simpl.
      now destruct (encode (vocab (self w)) rest).
    + rewrite bool_decide_eq_false_2 by (intros [? ?]; congruence).
      unfold mbind at 1, M_bind at 1, stoi_getitem at 1. simpl.
      destruct (vocab (self w) !! "<unk>") as [unk|] eqn:Hunk.
      * match goal with |- context [mbind _ (numericalize rest) ?w1] =>
          destruct (IH w1) as [log Hlog] end.
        unfold mbind, M_bind. rewrite Hlog. simpl.
        exists (Contains token :: GetItem "<unk>" :: log).
        rewrite <- !app_assoc. simpl.
        now destruct (encode (vocab (self w)) rest).
      * exists [Contains token; GetItem "<unk>"].
        rewrite <- !app_assoc. reflexivity.
Qed.

Lemma tokens_numerical_spec (sentence : string) (w : world) :
  exists log,
    tokens_numerical sentence w =
    (encoded (numericalized (self w) (tokenizer_calls w) sentence),
     World (self w) (tokenizer_calls w ++ [sentence])
           (vocab_accesses w ++ log) (run_model_calls w)).
Proof.
  unfold tokens_numerical, numericalized.
  unfold mbind, M_bind, call_tokenizer, get_max_filter_size. simpl.
  match goal with |- context [numericalize ?ts ?w1] =>
    destruct (numericalize_spec ts w1) as [log Hlog] end.
  exists log. exact Hlog.
Qed.

Lemma numericalized_has_unk (r : MovieReviewsModelRunner) history sentence :
  has_unk r -> is_Some (numericalized r history sentence).
Proof.
  intros [unk Hunk]. unfold numericalized.
  rewrite (encode_has_unk _ unk) by exact Hunk. eauto.
Qed.

Lemma numericalized_deterministic (r : MovieReviewsModelRunner)
    (history1 history2 : list string) (sentence : string) :
  deterministic (tokenizer r) ->
  numericalized r history1 sentence = numericalized r history2 sentence.
Proof.
  intros Hdet. unfold numericalized.
  now rewrite (Hdet history1 history2).
Qed.

(** ** The loops *)

(** One turn of each loop. *)
Lemma loop_lime_cons (s : string) (rest : list string) acc (w : world) :
  lime_text.loop (s :: rest) acc w =
  match tokens_numerical s w with
  | (Ok nums, w1) => lime_text.loop rest (acc ++ [nums]) w1
  | (Raise e, w1) => (Raise e, w1)
  end.
Proof. reflexivity. Qed.

Lemma loop_rise_cons sigmoid (s : string) (rest : list string) out0 (w : world) :
  rise_text.loop sigmoid (s :: rest) out0 w =
  match tokens_numerical s w with
  | (Ok nums, w1) =>
      let logits := run_model (self w1) (run_model_calls w1) [nums] in
      let w2 := World (self w1) (tokenizer_calls w1) (vocab_accesses w1)
                      (run_model_calls w1 ++ [[nums]]) in
      match np_float (sigmoid_2d sigmoid logits) with
      | Ok pred => rise_text.loop sigmoid rest (out0 ++ [pred]) w2
      | Raise e => (Raise e, w2)
      end
  | (Raise e, w1) => (Raise e, w1)
  end.
Proof.
  simpl. unfold mbind, M_bind, call_run_model, lift.
  destruct (tokens_numerical s w) as [[nums|e] w1]; reflexivity.
Qed.

Lemma loop_lime_self (sentences : list string) acc (w : world) :
  self (snd (lime_text.loop sentences acc w)) = self w /\
  run_model_calls (snd (lime_text.loop sentences acc w)) = run_model_calls w.
Proof.
  revert acc w. induction sentences as [|s rest IH]; intros acc w.
  - split; reflexivity.
  - simpl. unfold mbind, M_bind.
    destruct (tokens_numerical_spec s w) as [log ->].
    destruct (encoded _) as [nums|e]; simpl.
    + destruct (IH (acc ++ [nums])
        (World (self w) (tokenizer_calls w ++ [s])
               (vocab_accesses w ++ log) (run_model_calls w))) as [H1 H2].
      split; [rewrite H1 | rewrite H2]; reflexivity.
    + split; reflexivity.
Qed.

Lemma loop_rise_self sigmoid (sentences : list string) out (w : world) :
  self (snd (rise_text.loop sigmoid sentences out w)) = self w.
Proof.
  revert out w. induction sentences as [|s rest IH]; intros out w.
  - reflexivity.
  - simpl. unfold mbind at 1, M_bind at 1.
    destruct (tokens_numerical_spec s w) as [log ->].
    destruct (encoded _) as [nums|e]; simpl; [|reflexivity].
    unfold mbind at 1, M_bind at 1, call_run_model at 1. simpl.
    unfold mbind, M_bind, lift.
    destruct (np_float _) as [p|e]; simpl; [|reflexivity].
    now rewrite IH.
Qed.

Lemma loop_lime_Ok (sentences : list string) acc (w : world) batch w' :
  lime_text.loop sentences acc w = (Ok batch, w') ->
  exists new, batch = acc ++ new /\ Forall2 (encodes (self w)) sentences new.
Proof.
  revert acc w. induction sentences as [|s rest IH]; intros acc w.
  - simpl. intros [= <- <-]. exists []. rewrite app_nil_r. auto.
  - simpl. unfold mbind, M_bind.
    destruct (tokens_numerical_spec s w) as [log ->].
    destruct (numericalized _ _ _) as [nums|] eqn:Hnums; simpl;
      [|discriminate].
    intros Hrest. apply IH in Hrest as [new [-> Hnew]]. simpl in Hnew.
    exists (nums :: new). rewrite <- app_assoc. split; [reflexivity|].
    constructor; [|exact Hnew]. eexists; exact Hnums.
Qed.

Lemma loop_rise_Ok sigmoid (sentences : list string) out0 (w : world) out w' :
  rise_text.loop sigmoid sentences out0 w = (Ok out, w') ->
  exists new,
    out = out0 ++ new /\
    Forall2 (scored_alone sigmoid (self w)) sentences new.
Proof.
  revert out0 w. induction sentences as [|s rest IH]; intros out0 w.
  - simpl. intros [= <- <-]. exists []. rewrite app_nil_r. auto.
  - simpl. unfold mbind at 1, M_bind at 1.
    destruct (tokens_numerical_spec s w) as [log ->].
    destruct (numericalized _ _ _) as [nums|] eqn:Hnums; simpl;
      [|discriminate].
    unfold mbind at 1, M_bind at 1, call_run_model at 1. simpl.
    unfold mbind at 1, M_bind at 1, lift at 1.
    destruct (np_float _) as [p|e] eqn:Hp; [|discriminate].
    apply np_float_sigmoid_inv in Hp as [logit [Hlogit ->]].
    intros Hrest. apply IH in Hrest as [new [-> Hnew]]. simpl in Hnew.
    exists (sigmoid logit :: new). rewrite <- app_assoc.
    split; [reflexivity|].
    constructor; [|exact Hnew].
    exists nums, (run_model_calls w), logit.
    split; [eexists; exact Hnums|]. split; [exact Hlogit|reflexivity].
Qed.

Lemma loop_lime_total (sentences : list string) acc (w : world) :
  has_unk (self w) ->
  exists batch w', lime_text.loop sentences acc w = (Ok batch, w').
Proof.
  revert acc w. induction sentences as [|s rest IH]; intros acc w Hunk.
  - simpl. now eexists _, _.
  - simpl. unfold mbind, M_bind.
    destruct (tokens_numerical_spec s w) as [log ->].
    destruct (numericalized_has_unk (self w) (tokenizer_calls w) s Hunk)
      as [nums ->]. simpl.
    apply IH. exact Hunk.
Qed.

Lemma loop_rise_total sigmoid (sentences : list string) out0 (w : world) :
  has_unk (self w) -> returns_logit_column (self w) ->
  exists out w', rise_text.loop sigmoid sentences out0 w = (Ok out, w').
Proof.
  revert out0 w. induction sentences as [|s rest IH]; intros out0 w Hunk Hcol.
  - simpl. now eexists _, _.
  - simpl. unfold mbind at 1, M_bind at 1.
    destruct (tokens_numerical_spec s w) as [log ->].
    destruct (numericalized_has_unk (self w) (tokenizer_calls w) s Hunk)
      as [nums ->]. simpl.
    unfold mbind at 1, M_bind at 1, call_run_model at 1. simpl.
    destruct (Hcol (run_model_calls w) [nums]) as (logits & Hlen & ->).
    destruct logits as [|logit [|]]; try discriminate.
    unfold mbind at 1, M_bind at 1, lift at 1. simpl.
    apply IH; assumption.
Qed.

Lemma loops_agree sigmoid (logit : list Z -> R) (sentences : list string)
    acc out0 (w1 w2 : world) :
  self w1 = self w2 ->
  tokenizer_calls w1 = tokenizer_calls w2 ->
  scores_independently (self w1) logit ->
  (exists new w1' w2',
     lime_text.loop sentences acc w1 = (Ok (acc ++ new), w1') /\
     rise_text.loop sigmoid sentences out0 w2 =
       (Ok (out0 ++ map (fun nums => sigmoid (logit nums)) new), w2') /\
     length new = length sentences) \/
  (exists e w1' w2',
     lime_text.loop sentences acc w1 = (Raise e, w1') /\
     rise_text.loop sigmoid sentences out0 w2 = (Raise e, w2')).
Proof.
  revert acc out0 w1 w2.
  induction sentences as [|s rest IH]; intros acc out0 w1 w2 Hself Htok Hind.
  - left. exists [], w1, w2. simpl. rewrite !app_nil_r. auto.
  - rewrite loop_lime_cons, loop_rise_cons.
    destruct (tokens_numerical_spec s w1) as [log1 ->].
    destruct (tokens_numerical_spec s w2) as [log2 ->].
    rewrite <- Hself, <- Htok.
    destruct (numericalized (self w1) (tokenizer_calls w1) s) as [nums|];
      simpl; [|right; eauto].
    rewrite Hind. simpl.
    match goal with
    | |- context [lime_text.loop rest ?a ?wa] =>
        match goal with
        | |- context [rise_text.loop sigmoid rest ?o ?wb] =>
            destruct (IH a o wa wb) as
              [(new & w1' & w2' & -> & -> & Hlen)
              |(e & w1' & w2' & -> & ->)];
              [reflexivity|reflexivity|exact Hind| |]
        end
    end.
    + left. exists (nums :: new), w1', w2'.
      rewrite <- !app_assoc. simpl. auto.
    + right. eauto.
Qed.

Lemma loop_lime_deterministic (sentences : list string) acc (w1 w2 : world) :
  self w1 = self w2 ->
  deterministic (tokenizer (self w1)) ->
  fst (lime_text.loop sentences acc w1) = fst (lime_text.loop sentences acc w2).
Proof.
  revert acc w1 w2.
  induction sentences as [|s rest IH]; intros acc w1 w2 Hself Htok.
  - reflexivity.
  - rewrite !loop_lime_cons.
    destruct (tokens_numerical_spec s w1) as [log1 ->].
    destruct (tokens_numerical_spec s w2) as [log2 ->].
    rewrite <- Hself.
    rewrite (numericalized_deterministic _ (tokenizer_calls w2)
               (tokenizer_calls w1)) by exact Htok.
    destruct (numericalized _ _ _) as [nums|]; simpl; [|reflexivity].
    now apply IH.
Qed.

Lemma loop_rise_deterministic sigmoid (sentences : list string) out0
    (w1 w2 : world) :
  self w1 = self w2 ->
  deterministic (tokenizer (self w1)) ->
  deterministic (run_model (self w1)) ->
  fst (rise_text.loop sigmoid sentences out0 w1) =
  fst (rise_text.loop sigmoid sentences out0 w2).
Proof.
  revert out0 w1 w2.
  induction sentences as [|s rest IH]; intros out0 w1 w2 Hself Htok Hrun.
  - reflexivity.
  - rewrite !loop_rise_cons.
    destruct (tokens_numerical_spec s w1) as [log1 ->].
    destruct (tokens_numerical_spec s w2) as [log2 ->].
    rewrite <- Hself.
    rewrite (numericalized_deterministic _ (tokenizer_calls w2)
               (tokenizer_calls w1)) by exact Htok.
    destruct (numericalized _ _ _) as [nums|]; simpl; [|reflexivity].
    rewrite (Hrun (run_model_calls w2) (run_model_calls w1)).
    destruct (np_float _) as [pred|e]; simpl; [|reflexivity].
    now apply IH.
Qed.

(** ** The calls *)

Lemma rise_call_Ok_inv sigmoid (sentences : sentences_arg) (w : world) out w' :
  rise_text.__call__ sigmoid sentences w = (Ok out, w') ->
  exists positivity,
    rise_text.loop sigmoid (ensure_batch_axis sentences) [] w
      = (Ok positivity, w') /\
    out = NdArray (length positivity, 2%nat) (map score_row positivity).
Proof.
  unfold rise_text.__call__. intros H.
  apply bind_Ok_inv in H as (positivity & w1 & Hloop & Hout).
  rewrite two_classes_spec in Hout. injection Hout as <- <-.
  now exists positivity.
Qed.

Lemma lime_call_Ok_inv sigmoid (sentences : sentences_arg) (w : world) out w' :
  lime_text.__call__ sigmoid sentences w = (Ok out, w') ->
  exists batch w1,
    lime_text.loop (ensure_batch_axis sentences) [] w = (Ok batch, w1) /\
    let logits := run_model (self w) (run_model_calls w) batch in
    let positivity := column 0 (map (sigmoid_1d sigmoid) (rows logits)) in
    fst (shape logits) <> 0%nat /\
    out = NdArray (length positivity, 2%nat) (map score_row positivity).
Proof.
  unfold lime_text.__call__. intros H.
  apply bind_Ok_inv in H as (batch & w1 & Hloop & H).
  exists batch, w1. split; [exact Hloop|].
  pose proof (loop_lime_self (ensure_batch_axis sentences) [] w) as Hself.
  rewrite Hloop in Hself. simpl in Hself. destruct Hself as [Hself Hcalls].
  apply bind_Ok_inv in H as (logits & w2 & Hrun & H).
  unfold call_run_model in Hrun. injection Hrun as <- <-.
  rewrite Hself, Hcalls in H.
  apply bind_Ok_inv in H as (pred & w3 & Hpred & H).
  apply bind_Ok_inv in H as (positivity & w4 & Hpos & H).
  unfold lift in Hpred, Hpos.
  injection Hpred as Hpred <-. injection Hpos as Hpos <-.
  rewrite two_classes_spec in H. injection H as <- <-.
  unfold np_apply_along_axis_1 in Hpred.
  destruct (fst (shape _)) eqn:Hn; [discriminate|].
  injection Hpred as <-.
  unfold np_index_column in Hpos. simpl in Hpos.
  destruct (Nat.ltb _ _); [|discriminate].
  injection Hpos as <-.
  simpl. split; [discriminate|reflexivity].
Qed.

Lemma lime_call_self sigmoid (sentences : sentences_arg) (w : world) :
  self (snd (lime_text.__call__ sigmoid sentences w)) = self w.
Proof.
  unfold lime_text.__call__. unfold mbind at 1, M_bind at 1.
  pose proof (loop_lime_self (ensure_batch_axis sentences) [] w) as [Hs _].
  destruct (lime_text.loop _ _ _) as [[batch|e] w1]; simpl in *;
    [|exact Hs].
  unfold mbind at 1, M_bind at 1, call_run_model at 1.
  unfold mbind at 1, M_bind at 1, lift at 1.
  destruct (np_apply_along_axis_1 _ _) as [pred|e]; [|exact Hs].
  unfold mbind at 1, M_bind at 1, lift at 1.
  destruct (np_index_column _ _) as [positivity|e]; [|exact Hs].
  rewrite two_classes_spec. exact Hs.
Qed.

Lemma rise_call_self sigmoid (sentences : sentences_arg) (w : world) :
  self (snd (rise_text.__call__ sigmoid sentences w)) = self w.
Proof.
  unfold rise_text.__call__. unfold mbind at 1, M_bind at 1.
  pose proof (loop_rise_self sigmoid (ensure_batch_axis sentences) [] w)
    as Hs.
  destruct (rise_text.loop _ _ _ _) as [[out|e] w1]; simpl in *; exact Hs.
Qed.

Lemma lime_call_unfold sigmoid (sentences : sentences_arg) (w : world) :
  lime_text.__call__ sigmoid sentences w =
  match lime_text.loop (ensure_batch_axis sentences) [] w with
  | (Ok batch, w1) =>
      (pred ← lift (np_apply_along_axis_1 (sigmoid_1d sigmoid)
                      (run_model (self w1) (run_model_calls w1) batch));
       positivity ← lift (np_index_column pred 0);
       two_classes positivity)
        (World (self w1) (tokenizer_calls w1) (vocab_accesses w1)
               (run_model_calls w1 ++ [batch]))
  | (Raise e, w1) => (Raise e, w1)
  end.
Proof.
  unfold lime_text.__call__. unfold mbind at 1, M_bind at 1.
  destruct (lime_text.loop _ _ _) as [[batch|e] w1]; reflexivity.
Qed.

(** Whatever the adapter, when the scoring function answers the empty
    batch with a matrix without rows, the LIME notebook's version raises. *)
Lemma lime_call_empty_batch sigmoid (w : world) :
  fst (shape (run_model (self w) (run_model_calls w) [])) = 0%nat ->
  fst (lime_text.__call__ sigmoid (Seq []) w) = Raise ValueError.
Proof.
  intros Hrows. rewrite lime_call_unfold. simpl.
  unfold mbind, M_bind, lift, np_apply_along_axis_1.
  now rewrite Hrows.
Qed.

(** The post-processing of the LIME notebook on an N×1 matrix of logits,
    N > 0. *)
Lemma lime_postprocess sigmoid (n : nat) (logits : list R) (w : world) :
  n = length logits -> logits <> [] ->
  (pred ← lift (np_apply_along_axis_1 (sigmoid_1d sigmoid)
                  (NdArray (n, 1%nat) (map (fun l => [l]) logits)));
   positivity ← lift (np_index_column pred 0);
   two_classes positivity) w =
  (Ok (NdArray (n, 2%nat) (map (fun l => score_row (sigmoid l)) logits)), w).
Proof.
  intros -> Hne. destruct logits as [|logit logits]; [congruence|].
  unfold mbind at 1, M_bind at 1, lift at 1. simpl.
  unfold mbind at 1, M_bind at 1, lift at 1. simpl.
  unfold column. rewrite !map_map. simpl.
  rewrite (two_classes_spec (sigmoid logit :: map sigmoid logits)).
  simpl. now rewrite length_map, map_map.
Qed.

(** The post-processing of the LIME notebook does not look at the world. *)
Lemma lime_postprocess_pure (f : list R -> list R) (logits : ndarray)
    (w1 w2 : world) :
  fst ((pred ← lift (np_apply_along_axis_1 f logits);
        positivity ← lift (np_index_column pred 0);
        two_classes positivity) w1) =
  fst ((pred ← lift (np_apply_along_axis_1 f logits);
        positivity ← lift (np_index_column pred 0);
        two_classes positivity) w2).
Proof.
  unfold mbind, M_bind, lift.
  destruct (np_apply_along_axis_1 f logits) as [pred|e]; [|reflexivity].
  destruct (np_index_column pred 0) as [positivity|e]; [|reflexivity].
  now rewrite !two_classes_spec.
Qed.

(** Under the preconditions on the environment the RISE notebook's version
    returns, and its rows are the score rows of the sentences, in order. *)
Lemma rise_call_returns sigmoid (sentences : sentences_arg) (w : world) :
  has_unk (self w) -> returns_logit_column (self w) ->
  exists positivity w',
    rise_text.__call__ sigmoid sentences w =
      (Ok (NdArray (length (ensure_batch_axis sentences), 2%nat)
                   (map score_row positivity)), w') /\
    Forall2 (scored_alone sigmoid (self w))
            (ensure_batch_axis sentences) positivity.
Proof.
  intros Hunk Hcol.
  destruct (loop_rise_total sigmoid (ensure_batch_axis sentences) [] w
              Hunk Hcol) as (positivity & w' & Hloop).
  pose proof Hloop as Hnew.
  apply loop_rise_Ok in Hnew as (new & -> & Hnew). simpl in *.
  exists new, w'. split; [|exact Hnew].
  unfold rise_text.__call__. rewrite (bind_Ok _ _ _ _ _ Hloop).
  rewrite two_classes_spec. now rewrite (Forall2_length _ _ _ Hnew).
Qed.

(** Under the same preconditions the LIME notebook's version returns on
    every non-empty batch; its rows are the score rows of the logits of
    the batch of numericalized sentences, in order. *)
Lemma lime_call_returns sigmoid (sentences : sentences_arg) (w : world) :
  has_unk (self w) -> returns_logit_column (self w) ->
  ensure_batch_axis sentences <> [] ->
  exists batch logits w',
    lime_text.__call__ sigmoid sentences w =
      (Ok (NdArray (length (ensure_batch_axis sentences), 2%nat)
                   (map (fun l => score_row (sigmoid l)) logits)), w') /\
    Forall2 (encodes (self w)) (ensure_batch_axis sentences) batch /\
    length logits = length (ensure_batch_axis sentences) /\
    run_model (self w) (run_model_calls w) batch =
      NdArray (length (ensure_batch_axis sentences), 1%nat)
              (map (fun l => [l]) logits).
Proof.
  intros Hunk Hcol Hne.
  destruct (loop_lime_total (ensure_batch_axis sentences) [] w Hunk)
    as (batch & w1 & Hloop).
  pose proof (loop_lime_self (ensure_batch_axis sentences) [] w) as Hself.
  rewrite Hloop in Hself. simpl in Hself. destruct Hself as [Hself Hcalls].
  pose proof Hloop as Hbatch.
  apply loop_lime_Ok in Hbatch as (new & -> & Hnew). simpl in *.
  pose proof (Forall2_length _ _ _ Hnew) as Hlen.
  destruct (Hcol (run_model_calls w) new) as (logits & Hlogits & Hrun).
  assert (Hlogits_ne : logits <> []).
  { intros ->. destruct (ensure_batch_axis sentences); [congruence|].
    inversion Hnew; subst. discriminate. }
  exists new, logits. eexists. split; [|split; [exact Hnew|split]].
  - unfold lime_text.__call__.
    rewrite (bind_Ok _ _ _ _ _ Hloop).
    unfold mbind at 1, M_bind at 1, call_run_model at 1.
    rewrite Hself, Hcalls, Hrun, <- Hlen.
    apply lime_postprocess; [congruence|exact Hlogits_ne].
  - congruence.
  - now rewrite Hrun, <- Hlen.
Qed.

Lemma lime_call_deterministic sigmoid (sentences : sentences_arg)
    (w1 w2 : world) :
  self w1 = self w2 ->
  deterministic (tokenizer (self w1)) ->
  deterministic (run_model (self w1)) ->
  fst (lime_text.__call__ sigmoid sentences w1) =
  fst (lime_text.__call__ sigmoid sentences w2).
Proof.
  intros Hself Htok Hrun. rewrite !lime_call_unfold.
  pose proof (loop_lime_deterministic (ensure_batch_axis sentences) []
                w1 w2 Hself Htok) as Hloop.
  pose proof (loop_lime_self (ensure_batch_axis sentences) [] w1) as [Hs1 _].
  pose proof (loop_lime_self (ensure_batch_axis sentences) [] w2) as [Hs2 _].
  destruct (lime_text.loop _ _ w1) as [[batch1|e1] w1'];
    destruct (lime_text.loop _ _ w2) as [[batch2|e2] w2'];
    simpl in *; try discriminate; [|congruence].
  injection Hloop as <-.
  rewrite Hs1, Hs2, <- Hself.
  rewrite (Hrun (run_model_calls w2') (run_model_calls w1')).
  apply lime_postprocess_pure.
Qed.

Lemma rise_call_deterministic sigmoid (sentences : sentences_arg)
    (w1 w2 : world) :
  self w1 = self w2 ->
  deterministic (tokenizer (self w1)) ->
  deterministic (run_model (self w1)) ->
  fst (rise_text.__call__ sigmoid sentences w1) =
  fst (rise_text.__call__ sigmoid sentences w2).
Proof.
  intros Hself Htok Hrun. unfold rise_text.__call__, mbind, M_bind.
  pose proof (loop_rise_deterministic sigmoid (ensure_batch_axis sentences)
                [] w1 w2 Hself Htok Hrun) as Hloop.
  destruct (rise_text.loop _ _ _ w1) as [[out1|e1] w1'];
    destruct (rise_text.loop _ _ _ w2) as [[out2|e2] w2'];
    simpl in *; try discriminate; [|congruence].
  injection Hloop as <-. reflexivity.
Qed.

(** ** The concrete adapter *)

Lemma expit_range (x : R) : (0 <= expit x <= 1)%R.
Proof.
  unfold expit. pose proof (exp_pos (- x)) as He.
  assert (Hd : (0 < 1 + exp (- x))%R) by lra.
  split.
  - apply Rlt_le, Rdiv_lt_0_compat; lra.
  - apply (Rmult_le_reg_r (1 + exp (- x))); [exact Hd|].
    unfold Rdiv. rewrite Rmult_assoc, Rinv_l by lra. lra.
Qed.

Lemma demo_has_unk : has_unk demo_runner.
Proof. exists 0%Z. reflexivity. Qed.

Lemma demo_scores_independently : scores_independently demo_runner demo_logit.
Proof. intros history batch. reflexivity. Qed.

Lemma demo_returns_logit_column : returns_logit_column demo_runner.
Proof.
  intros history batch. exists (map demo_logit batch).
  split; [apply length_map|].
  simpl. unfold demo_run_model. now rewrite map_map.
Qed.

Lemma demo_tokenizer_deterministic : deterministic (tokenizer demo_runner).
Proof. intros history1 history2 sentence. reflexivity. Qed.

Lemma demo_run_model_deterministic : deterministic (run_model demo_runner).
Proof. intros history1 history2 batch. reflexivity. Qed.

Example demo_tokens_numerical :
  fst (tokens_numerical "a good film" demo_world) = Ok [2; 3; 4; 1; 1]%Z /\
  fst (tokens_numerical "bad" demo_world) = Ok [0; 1; 1; 1; 1]%Z.
Proof. split; reflexivity. Qed.

Example demo_rise_call :
  fst (rise_text.__call__ expit demo_sentences demo_world) = Ok demo_scores.
Proof. reflexivity. Qed.

Example demo_lime_call :
  fst (lime_text.__call__ expit demo_sentences demo_world) = Ok demo_scores.
Proof. reflexivity. Qed.

(** The review of the tutorials has eight tokens: with [max_filter_size]
    5 it is not padded. *)
Example review_not_padded :
  let tokens :=
    demo_tokenizer [] "A delectable and intriguing thriller filled with surprises" in
  length tokens = 8%nat /\ pad_tokens 5 tokens = tokens.
Proof. split; reflexivity. Qed.

(** Without ['<unk>'] in the vocabulary an unseen word raises. *)
Example numericalize_without_unk :
  fst (numericalize ["good"; "bad"]
         (World {| run_model := demo_run_model;
                   vocab := delete "<unk>" demo_vocab;
                   max_filter_size := 5;
                   tokenizer := demo_tokenizer |} [] [] []))
  = Raise (KeyError "<unk>").
Proof. reflexivity. Qed.

(** With a scoring function that counts its calls, two calls in a row on
    the same sentence return different arrays: determinism of [__call__]
    needs the determinism of what it calls. *)
Example counting_adapter_not_deterministic :
  let first := rise_text.__call__ expit (Str "bad") counting_world in
  let second := rise_text.__call__ expit (Str "bad") (snd first) in
  fst first = Ok (NdArray (1%nat, 2%nat) [[(1 - expit 0)%R; expit 0]]) /\
  fst second = Ok (NdArray (1%nat, 2%nat) [[(1 - expit 1)%R; expit 1]]).
Proof. split; reflexivity. Qed.

(** * The claims of the specification *)

(** ** C1: one row per sentence, in order *)

(** On the empty batch the LIME notebook's version raises, although the
    vocabulary has ['<unk>'] and the scoring function returns N×1 logits:
    [np.apply_along_axis] refuses the 0×1 matrix.  No array is returned. *)
Lemma lime_call_empty_batch_raises :
  has_unk (self demo_world) /\
  returns_logit_column (self demo_world) /\
  lime_text.__call__ expit (Seq []) demo_world =
    (Raise ValueError, World demo_runner [] [] [[]]) /\
  ~ (exists out w',
       lime_text.__call__ expit (Seq []) demo_world = (Ok out, w')).
Proof.
  split; [exact demo_has_unk|]. split; [exact demo_returns_logit_column|].
  split; [reflexivity|].
  intros (out & w' & H). discriminate H.
Qed.

(** C1, the batched version on non-empty batches only.  Let the vocabulary
    have an entry for ['<unk>'] and let the scoring function answer N
    sequences with N×1 logits.  Then, for a batch of N sentences:
    - the per-sentence version (RISE notebook) returns an N×2 array whose
      row i is the score row of sentence i, for every N;
    - the batched version (LIME notebook) does so for every non-empty
      batch: its row i is the score row of the i-th logit, the logits
      being those of the batch of the numericalized sentences, in order. *)
Theorem call_returns_one_row_per_sentence (sigmoid : R -> R)
    (sentences : sentences_arg) (w : world) :
  has_unk (self w) ->
  returns_logit_column (self w) ->
  let batch_of := ensure_batch_axis sentences in
  let N := length batch_of in
  (exists out w',
     rise_text.__call__ sigmoid sentences w = (Ok out, w') /\
     shape out = (N, 2%nat) /\ well_shaped out /\
     Forall2
       (fun sentence row =>
          exists positivity,
            scored_alone sigmoid (self w) sentence positivity /\
            row = score_row positivity)
       batch_of (rows out)) /\
  (batch_of <> [] ->
   exists out w',
     lime_text.__call__ sigmoid sentences w = (Ok out, w') /\
     shape out = (N, 2%nat) /\ well_shaped out /\
     exists batch logits,
       Forall2 (encodes (self w)) batch_of batch /\
       run_model (self w) (run_model_calls w) batch =
         NdArray (N, 1%nat) (map (fun l => [l]) logits) /\
       Forall2 (fun logit row => row = score_row (sigmoid logit))
               logits (rows out)).
Proof.
  intros Hunk Hcol batch_of N. split.
  - destruct (rise_call_returns sigmoid sentences w Hunk Hcol)
      as (positivity & w' & Hcall & Hrows).
    eexists _, w'. split; [exact Hcall|]. simpl.
    split; [reflexivity|]. split.
    + unfold N, batch_of. rewrite (Forall2_length _ _ _ Hrows).
      apply score_rows_well_shaped.
    + eapply Forall2_map_r_impl; [|exact Hrows]. eauto.
  - intros Hne.
    destruct (lime_call_returns sigmoid sentences w Hunk Hcol Hne)
      as (batch & logits & w' & Hcall & Hbatch & Hlen & Hrun).
    eexists _, w'. split; [exact Hcall|]. simpl.
    split; [reflexivity|]. split.
    + unfold N, batch_of. rewrite <- Hlen.
      rewrite <- (length_map sigmoid logits).
      rewrite <- (map_map sigmoid score_row).
      apply score_rows_well_shaped.
    + exists batch, logits. split; [exact Hbatch|]. split; [exact Hrun|].
      now apply Forall2_map_r_all.
Qed.

Lemma call_returns_one_row_per_sentence_demo :
  has_unk (self demo_world) /\
  returns_logit_column (self demo_world) /\
  (exists out w',
     rise_text.__call__ expit demo_sentences demo_world = (Ok out, w') /\
     shape out = (2%nat, 2%nat)) /\
  (exists out w',
     lime_text.__call__ expit demo_sentences demo_world = (Ok out, w') /\
     shape out = (2%nat, 2%nat)).
Proof.
  split; [exact demo_has_unk|]. split; [exact demo_returns_logit_column|].
  destruct (call_returns_one_row_per_sentence expit demo_sentences demo_world
              demo_has_unk demo_returns_logit_column) as [Hrise Hlime].
  split.
  - destruct Hrise as (out & w' & Hcall & Hshape & _).
    exists out, w'. split; assumption.
  - destruct Hlime as (out & w' & Hcall & Hshape & _); [discriminate|].
    exists out, w'. split; assumption.
Defined.

(** ** C2: rows are complementary probabilities *)

(** C2.  Provided the sigmoid takes its values in [0,1], every row of the
    array that [__call__] returns, in either notebook, is a pair
    (negativity, positivity) of numbers of [0,1] that sum to exactly 1,
    negativity being 1 - positivity.  (Exact arithmetic on real numbers.) *)
Theorem score_rows_are_complementary_probabilities (sigmoid : R -> R)
    (sentences : sentences_arg) (w : world) (out : ndarray) (w' : world) :
  (forall x, 0 <= sigmoid x <= 1)%R ->
  lime_text.__call__ sigmoid sentences w = (Ok out, w') \/
  rise_text.__call__ sigmoid sentences w = (Ok out, w') ->
  snd (shape out) = 2%nat /\
  Forall (fun row =>
            exists negativity positivity,
              row = [negativity; positivity] /\
              (0 <= negativity <= 1)%R /\ (0 <= positivity <= 1)%R /\
              (negativity + positivity = 1)%R /\
              negativity = (1 - positivity)%R)
         (rows out).
Proof.
  intros Hrange [Hcall|Hcall].
  - apply lime_call_Ok_inv in Hcall as (batch & w1 & _ & _ & ->).
    split; [reflexivity|]. simpl.
    unfold column. rewrite !map_map.
    apply Forall_map_all. intros logits. apply score_row_range.
    unfold sigmoid_1d. destruct logits as [|l rest]; simpl; [lra|apply Hrange].
  - apply rise_call_Ok_inv in Hcall as (positivity & Hloop & ->).
    split; [reflexivity|]. simpl.
    apply loop_rise_Ok in Hloop as (new & -> & Hnew). simpl.
    eapply Forall2_map_r_Forall; [|exact Hnew].
    intros s p (nums & history & logit & _ & _ & ->).
    apply score_row_range, Hrange.
Qed.

Lemma score_rows_are_complementary_probabilities_demo :
  (forall x, 0 <= expit x <= 1)%R /\
  rise_text.__call__ expit demo_sentences demo_world =
    (Ok demo_scores,
     snd (rise_text.__call__ expit demo_sentences demo_world)) /\
  Forall (fun row =>
            exists negativity positivity,
              row = [negativity; positivity] /\
              (0 <= negativity <= 1)%R /\ (0 <= positivity <= 1)%R /\
              (negativity + positivity = 1)%R /\
              negativity = (1 - positivity)%R)
         (rows demo_scores).
Proof.
  assert (Hcall : rise_text.__call__ expit demo_sentences demo_world =
            (Ok demo_scores,
             snd (rise_text.__call__ expit demo_sentences demo_world)))
    by (apply outcome_and_world; exact demo_rise_call).
  split; [exact expit_range|]. split; [exact Hcall|].
  exact (proj2 (score_rows_are_complementary_probabilities expit
                  demo_sentences demo_world demo_scores _
                  expit_range (or_intror Hcall))).
Defined.

(** ** C3: (negativity, positivity) from the logit *)

(** C3.  Every row of the returned array is (negativity, positivity), in
    that column order, with positivity the sigmoid of the logit of the
    sentence and negativity one minus it.
    - RISE notebook: whenever the call returns, row i belongs to sentence
      i, and its logit is the single entry of what the scoring function
      returned for the numericalized sentence alone.
    - LIME notebook: whenever the call returns, the scoring function was
      called once, on the batch of the numericalized sentences; row i of
      the result comes from row i of the logits, whose first entry is the
      logit.
    - And the call does return such a row for every sentence of the batch,
      in both notebooks, when the vocabulary has ['<unk>'] and the scoring
      function answers N sequences with N×1 logits. *)
Theorem score_row_is_complement_and_sigmoid_of_logit (sigmoid : R -> R)
    (sentences : sentences_arg) (w : world) :
  (forall out w',
     rise_text.__call__ sigmoid sentences w = (Ok out, w') ->
     Forall2
       (fun sentence row =>
          exists nums history logit,
            encodes (self w) sentence nums /\
            rows (run_model (self w) history [nums]) = [[logit]] /\
            row = [(1 - sigmoid logit)%R; sigmoid logit])
       (ensure_batch_axis sentences) (rows out)) /\
  (forall out w',
     lime_text.__call__ sigmoid sentences w = (Ok out, w') ->
     exists batch,
       Forall2 (encodes (self w)) (ensure_batch_axis sentences) batch /\
       Forall2
         (fun logit_row row =>
            forall logit rest,
              logit_row = logit :: rest ->
              row = [(1 - sigmoid logit)%R; sigmoid logit])
         (rows (run_model (self w) (run_model_calls w) batch)) (rows out)) /\
  (has_unk (self w) -> returns_logit_column (self w) ->
   forall (i : nat) (sentence : string),
     ensure_batch_axis sentences !! i = Some sentence ->
     (exists out w' nums history logit,
        rise_text.__call__ sigmoid sentences w = (Ok out, w') /\
        encodes (self w) sentence nums /\
        rows (run_model (self w) history [nums]) = [[logit]] /\
        rows out !! i = Some [(1 - sigmoid logit)%R; sigmoid logit]) /\
     (exists out w' batch nums logit,
        lime_text.__call__ sigmoid sentences w = (Ok out, w') /\
        Forall2 (encodes (self w)) (ensure_batch_axis sentences) batch /\
        batch !! i = Some nums /\
        rows (run_model (self w) (run_model_calls w) batch) !! i
          = Some [logit] /\
        rows out !! i = Some [(1 - sigmoid logit)%R; sigmoid logit])).
Proof.
  split; [|split].
  - intros out w' Hcall.
    apply rise_call_Ok_inv in Hcall as (positivity & Hloop & ->).
    apply loop_rise_Ok in Hloop as (new & -> & Hnew). simpl.
    eapply Forall2_map_r_impl; [|exact Hnew].
    intros s p (nums & history & logit & Henc & Hlogit & ->).
    now exists nums, history, logit.
  - intros out w' Hcall.
    apply lime_call_Ok_inv in Hcall as (batch & w1 & Hloop & _ & ->).
    apply loop_lime_Ok in Hloop as (new & -> & Hnew). simpl in *.
    exists new. split; [exact Hnew|].
    unfold column. rewrite !map_map.
    apply Forall2_map_r_all.
    intros logit_row logit rest ->. reflexivity.
  - intros Hunk Hcol i sentence Hi. split.
    + destruct (rise_call_returns sigmoid sentences w Hunk Hcol)
        as (positivity & w' & Hcall & Hrows).
      destruct (Forall2_lookup_l _ _ _ _ _ Hrows Hi)
        as (p & Hp & nums & history & logit & Henc & Hlogit & ->).
      eexists _, w', nums, history, logit.
      split; [exact Hcall|]. split; [exact Henc|]. split; [exact Hlogit|].
      simpl. change (map score_row positivity) with (score_row <$> positivity).
      now rewrite list_lookup_fmap, Hp.
    + assert (Hne : ensure_batch_axis sentences <> []).
      { intros Hnil. rewrite Hnil in Hi. discriminate. }
      destruct (lime_call_returns sigmoid sentences w Hunk Hcol Hne)
        as (batch & logits & w' & Hcall & Hbatch & Hlen & Hrun).
      destruct (Forall2_lookup_l _ _ _ _ _ Hbatch Hi) as (nums & Hnums & _).
      destruct (lookup_lt_is_Some_2 logits i) as [logit Hlogit].
      { rewrite Hlen. eapply lookup_lt_Some. exact Hi. }
      eexists _, w', batch, nums, logit.
      split; [exact Hcall|]. split; [exact Hbatch|]. split; [exact Hnums|].
      rewrite Hrun. simpl. split.
      * change (map ?f logits) with (f <$> logits).
        now rewrite list_lookup_fmap, Hlogit.
      * change (map ?f logits) with (f <$> logits).
        now rewrite list_lookup_fmap, Hlogit.
Qed.

Lemma score_row_is_complement_and_sigmoid_of_logit_demo :
  rise_text.__call__ expit demo_sentences demo_world =
    (Ok demo_scores,
     snd (rise_text.__call__ expit demo_sentences demo_world)) /\
  Forall2
    (fun sentence row =>
       exists nums history logit,
         encodes demo_runner sentence nums /\
         rows (run_model demo_runner history [nums]) = [[logit]] /\
         row = [(1 - expit logit)%R; expit logit])
    ["a good film"; "bad"] (rows demo_scores).
Proof.
  assert (Hcall : rise_text.__call__ expit demo_sentences demo_world =
            (Ok demo_scores,
             snd (rise_text.__call__ expit demo_sentences demo_world)))
    by (apply outcome_and_world; exact demo_rise_call).
  split; [exact Hcall|].
  exact (proj1 (score_row_is_complement_and_sigmoid_of_logit expit
                  demo_sentences demo_world) demo_scores _ Hcall).
Defined.

(** ** C4: padding to the minimum length *)

(** C4.  In the loop body of both notebooks, the tokens of a sentence
    reach numericalization through [pad_tokens]: with fewer than
    [max_filter_size] tokens they are padded on the right with ['<pad>'] to
    exactly [max_filter_size] tokens, otherwise they are passed on
    unchanged.  So what is numericalized has
    max(number of tokens, max_filter_size) >= max_filter_size tokens. *)
Theorem tokens_padded_before_numericalization (sentence : string) (w : world) :
  let tokens := tokenizer (self w) (tokenizer_calls w) sentence in
  let mfs := max_filter_size (self w) in
  let padded := pad_tokens mfs tokens in
  tokens_numerical sentence w =
    numericalize padded
      (World (self w) (tokenizer_calls w ++ [sentence])
             (vocab_accesses w) (run_model_calls w)) /\
  ((Z.of_nat (length tokens) < mfs)%Z ->
     padded =
       tokens ++ replicate (Z.to_nat (mfs - Z.of_nat (length tokens))) "<pad>" /\
     Z.of_nat (length padded) = mfs) /\
  ((mfs <= Z.of_nat (length tokens))%Z -> padded = tokens) /\
  Z.of_nat (length padded) = Z.max (Z.of_nat (length tokens)) mfs /\
  (mfs <= Z.of_nat (length padded))%Z.
Proof.
  intros tokens mfs padded.
  pose proof (pad_tokens_length mfs tokens) as Hlen. fold padded in Hlen.
  split; [reflexivity|].
  split; [|split; [|split]].
  - intros Hlt. split; [|lia].
    unfold padded, pad_tokens.
    destruct (Z.ltb_spec (Z.of_nat (length tokens)) mfs); [reflexivity|lia].
  - intros Hge. unfold padded, pad_tokens.
    destruct (Z.ltb_spec (Z.of_nat (length tokens)) mfs); [lia|reflexivity].
  - exact Hlen.
  - lia.
Qed.

Lemma tokens_padded_before_numericalization_demo :
  (Z.of_nat (length (demo_tokenizer [] "bad")) < 5)%Z /\
  pad_tokens 5 (demo_tokenizer [] "bad") =
    ["bad"; "<pad>"; "<pad>"; "<pad>"; "<pad>"] /\
  Z.of_nat (length (pad_tokens 5 (demo_tokenizer [] "bad"))) = 5%Z.
Proof.
  assert (Hshort : (Z.of_nat (length (demo_tokenizer [] "bad")) < 5)%Z)
    by reflexivity.
  split; [exact Hshort|].
  destruct (tokens_padded_before_numericalization "bad" demo_world)
    as (_ & Hpad & _).
  destruct (Hpad Hshort) as [Hpadded Hlen].
  split; [exact Hpadded|exact Hlen].
Defined.

(** ** C5: numericalization is total *)

(** C5.  When the vocabulary has an entry for ['<unk>'], numericalization
    never raises: it returns one index per token, the token's own index
    when the vocabulary knows the token and the index of ['<unk>'] when it
    does not; the adapter object is left as it was. *)
Theorem numericalize_total (tokens : list string) (w : world) (unk : Z) :
  vocab (self w) !! "<unk>" = Some unk ->
  exists ids w',
    numericalize tokens w = (Ok ids, w') /\
    self w' = self w /\
    length ids = length tokens /\
    forall (i : nat) (token : string),
      tokens !! i = Some token ->
      (forall k, vocab (self w) !! token = Some k -> ids !! i = Some k) /\
      (vocab (self w) !! token = None -> ids !! i = Some unk).
Proof.
  intros Hunk.
  destruct (numericalize_spec tokens w) as [log Hrun].
  rewrite (encode_has_unk _ unk) in Hrun by exact Hunk. simpl in Hrun.
  eexists _, _. split; [exact Hrun|].
  split; [reflexivity|]. split; [apply length_map|].
  intros i token Hi.
  change (map ?f tokens) with (f <$> tokens).
  rewrite list_lookup_fmap, Hi. simpl.
  split.
  - intros k Hk. now rewrite Hk.
  - intros Hnone. now rewrite Hnone.
Qed.

Lemma numericalize_total_demo :
  vocab (self demo_world) !! "<unk>" = Some 0%Z /\
  exists ids w',
    numericalize ["good"; "bad"] demo_world = (Ok ids, w') /\
    ids !! 0%nat = Some 3%Z /\ ids !! 1%nat = Some 0%Z.
Proof.
  split; [reflexivity|].
  destruct (numericalize_total ["good"; "bad"] demo_world 0%Z eq_refl)
    as (ids & w' & Hrun & _ & _ & Hids).
  exists ids, w'. split; [exact Hrun|]. split.
  - apply (proj1 (Hids 0%nat "good" eq_refl)). reflexivity.
  - apply (proj2 (Hids 1%nat "bad" eq_refl)). reflexivity.
Defined.

(** ** C6: a single string is a batch of one *)

(** C6.  Calling the adapter on a single string [s] is the same
    computation as calling it on the one-element list [[s]]: same outcome
    and same world afterwards, in both notebooks. *)
Theorem call_single_string_as_batch_of_one sigmoid (s : string) (w : world) :
  lime_text.__call__ sigmoid (Str s) w = lime_text.__call__ sigmoid (Seq [s]) w /\
  rise_text.__call__ sigmoid (Str s) w = rise_text.__call__ sigmoid (Seq [s]) w.
Proof. split; reflexivity. Qed.

(** ** C7: the two notebooks agree *)

(** The two notebooks differ in two ways.
    - On the empty batch, although the scoring function scores every
      sentence independently: the LIME notebook's version raises, the RISE
      notebook's returns the 0×2 array.
    - In floating point, on a batch of one sentence: with logits of dtype
      [float32] and the positivity 14372788·2^-31 (that of the logit -5),
      the LIME notebook's version returns the [float32] row
      [[0.9933071732521057, 0.006692850962281227]], the RISE notebook's
      the [float64] row [[0.9933071490377188, 0.006692850962281227]]: the
      positivities are the same number, the negativities are 13·2^-29
      apart, [1 - positivity] being rounded to 24 bits in the first and
      exact in the second. *)
Lemma lime_and_rise_differ :
  (scores_independently (self demo_world) demo_logit /\
   fst (lime_text.__call__ expit (Seq []) demo_world) = Raise ValueError /\
   fst (rise_text.__call__ expit (Seq []) demo_world) =
     Ok (NdArray (0%nat, 2%nat) []) /\
   fst (lime_text.__call__ expit (Seq []) demo_world) <>
   fst (rise_text.__call__ expit (Seq []) demo_world)) /\
  (floating.lime_rows floating.float32 [[floating.expit_of_minus_5]] =
     (floating.float32,
      [[SpecFloat.S754_finite false 16664929 (-24);
        SpecFloat.S754_finite false 14372788 (-31)]]) /\
   floating.rise_rows floating.float32 [floating.expit_of_minus_5] =
     (floating.float64,
      [[SpecFloat.S754_finite false 8946915412541440 (-53);
        SpecFloat.S754_finite false 7716331801542656 (-60)]]) /\
   (floating.value (SpecFloat.S754_finite false 7716331801542656 (-60)) ==
    floating.value (SpecFloat.S754_finite false 14372788 (-31)))%Q /\
   (floating.value (SpecFloat.S754_finite false 16664929 (-24)) -
    floating.value (SpecFloat.S754_finite false 8946915412541440 (-53)) ==
    13 # 2 ^ 29)%Q).
Proof.
  split.
  - split; [exact demo_scores_independently|].
    split; [reflexivity|]. split; [reflexivity|].
    discriminate.
  - split; [vm_compute; reflexivity|].
    split; [vm_compute; reflexivity|].
    split; vm_compute; reflexivity.
Qed.

(** C7, in exact arithmetic and on non-empty batches.  Arrays hold exact
    real numbers here: dtype and rounding are left aside.  When the scoring
    function maps each numericalized sentence, independently of the rest of
    the batch and of earlier calls, to one logit (an N×1 matrix for N
    sequences), the batched version of the LIME notebook and the
    per-sentence version of the RISE notebook have the same outcome on
    every non-empty batch of sentences: the same N×2 array of real
    numbers, or the same exception when the vocabulary lacks ['<unk>']. *)
Theorem lime_and_rise_agree_on_nonempty_batches (sigmoid : R -> R)
    (logit : list Z -> R) (sentences : sentences_arg) (w : world) :
  scores_independently (self w) logit ->
  ensure_batch_axis sentences <> [] ->
  fst (lime_text.__call__ sigmoid sentences w) =
  fst (rise_text.__call__ sigmoid sentences w).
Proof.
  intros Hind Hne.
  unfold lime_text.__call__, rise_text.__call__.
  destruct (loops_agree sigmoid logit (ensure_batch_axis sentences)
              [] [] w w eq_refl eq_refl Hind)
    as [(new & w1 & w2 & Hlime & Hrise & Hlen)|(e & w1 & w2 & Hlime & Hrise)].
  - pose proof (loop_lime_self (ensure_batch_axis sentences) [] w) as Hself.
    rewrite Hlime in Hself. simpl in Hself. destruct Hself as [Hself Hcalls].
    rewrite (bind_Ok _ _ _ _ _ Hlime), (bind_Ok _ _ _ _ _ Hrise).
    simpl app.
    unfold mbind at 1, M_bind at 1, call_run_model at 1.
    rewrite Hself, Hind.
    rewrite <- (map_map logit (fun l => [l])).
    rewrite lime_postprocess.
    + rewrite two_classes_spec. simpl.
      now rewrite !length_map, !map_map.
    + now rewrite length_map.
    + destruct new; [|discriminate].
      destruct (ensure_batch_axis sentences); [congruence|discriminate].
  - now rewrite (bind_Raise _ _ _ _ _ Hlime), (bind_Raise _ _ _ _ _ Hrise).
Qed.

Lemma lime_and_rise_agree_on_nonempty_batches_demo :
  scores_independently (self demo_world) demo_logit /\
  ensure_batch_axis demo_sentences <> [] /\
  fst (lime_text.__call__ expit demo_sentences demo_world) =
  fst (rise_text.__call__ expit demo_sentences demo_world).
Proof.
  assert (Hne : ensure_batch_axis demo_sentences <> []) by discriminate.
  split; [exact demo_scores_independently|]. split; [exact Hne|].
  exact (lime_and_rise_agree_on_nonempty_batches expit demo_logit
           demo_sentences demo_world demo_scores_independently Hne).
Defined.

(** ** C8: the adapter is not modified *)

(** C8.  No call of [__call__], in either notebook and on any input,
    changes the adapter object: the world after the call holds the same
    [self], hence the same vocabulary, [max_filter_size], tokenizer and
    scoring function.  This holds whether the call returns or raises. *)
Theorem call_leaves_adapter_unchanged sigmoid (sentences : sentences_arg)
    (w : world) :
  let after_lime := snd (lime_text.__call__ sigmoid sentences w) in
  let after_rise := snd (rise_text.__call__ sigmoid sentences w) in
  (self after_lime = self w /\
   vocab (self after_lime) = vocab (self w) /\
   max_filter_size (self after_lime) = max_filter_size (self w) /\
   tokenizer (self after_lime) = tokenizer (self w) /\
   run_model (self after_lime) = run_model (self w)) /\
  (self after_rise = self w /\
   vocab (self after_rise) = vocab (self w) /\
   max_filter_size (self after_rise) = max_filter_size (self w) /\
   tokenizer (self after_rise) = tokenizer (self w) /\
   run_model (self after_rise) = run_model (self w)).
Proof.
  pose proof (lime_call_self sigmoid sentences w) as Hlime.
  pose proof (rise_call_self sigmoid sentences w) as Hrise.
  simpl. rewrite Hlime, Hrise. repeat split; reflexivity.
Qed.

(** ** C9: the empty batch in the RISE notebook *)

(** C9.  On the empty list of sentences the per-sentence version (RISE
    notebook) returns the 0×2 array, and the world after the call is the
    world before it: nothing was logged, so neither the tokenizer nor the
    vocabulary nor the scoring function was invoked. *)
Theorem rise_call_empty_batch sigmoid (w : world) :
  rise_text.__call__ sigmoid (Seq []) w = (Ok (NdArray (0%nat, 2%nat) []), w) /\
  let w' := snd (rise_text.__call__ sigmoid (Seq []) w) in
  tokenizer_calls w' = tokenizer_calls w /\
  vocab_accesses w' = vocab_accesses w /\
  run_model_calls w' = run_model_calls w.
Proof. repeat split; reflexivity. Qed.

(** ** C10: determinism *)

(** C10.  For a fixed adapter whose tokenizer and scoring function are
    deterministic (their answer depends on their argument alone),
    [__call__] is a function of its input: in any two worlds that hold the
    same adapter, the outcome on the same sentences is the same; in
    particular a call and the call made right after it on the same
    sentences return equal outputs.  Both notebooks. *)
Theorem call_is_deterministic (sigmoid : R -> R) (sentences : sentences_arg)
    (w1 w2 : world) :
  self w1 = self w2 ->
  deterministic (tokenizer (self w1)) ->
  deterministic (run_model (self w1)) ->
  (fst (lime_text.__call__ sigmoid sentences w1) =
     fst (lime_text.__call__ sigmoid sentences w2) /\
   fst (rise_text.__call__ sigmoid sentences w1) =
     fst (rise_text.__call__ sigmoid sentences w2)) /\
  (fst (lime_text.__call__ sigmoid sentences
          (snd (lime_text.__call__ sigmoid sentences w1))) =
     fst (lime_text.__call__ sigmoid sentences w1) /\
   fst (rise_text.__call__ sigmoid sentences
          (snd (rise_text.__call__ sigmoid sentences w1))) =
     fst (rise_text.__call__ sigmoid sentences w1)).
Proof.
  intros Hself Htok Hrun.
  pose proof (lime_call_self sigmoid sentences w1) as Hlime.
  pose proof (rise_call_self sigmoid sentences w1) as Hrise.
  split; split.
  - now apply lime_call_deterministic.
  - now apply rise_call_deterministic.
  - apply lime_call_deterministic; rewrite ?Hlime; auto.
  - apply rise_call_deterministic; rewrite ?Hrise; auto.
Qed.

Lemma call_is_deterministic_demo :
  self demo_world = self demo_world_later /\
  deterministic (tokenizer (self demo_world)) /\
  deterministic (run_model (self demo_world)) /\
  fst (lime_text.__call__ expit demo_sentences demo_world) =
    fst (lime_text.__call__ expit demo_sentences demo_world_later) /\
  fst (rise_text.__call__ expit demo_sentences demo_world) =
    fst (rise_text.__call__ expit demo_sentences demo_world_later).
Proof.
  split; [reflexivity|].
  split; [exact demo_tokenizer_deterministic|].
  split; [exact demo_run_model_deterministic|].
  exact (proj1 (call_is_deterministic expit demo_sentences demo_world
                  demo_world_later eq_refl demo_tokenizer_deterministic
                  demo_run_model_deterministic)).
Defined.

(** * Further properties of the code *)

(** ** Padding and numericalization, continued *)

Lemma pad_tokens_eq (mfs : Z) (tokens : list string) :
  pad_tokens mfs tokens =
  tokens ++ replicate (Z.to_nat (mfs - Z.of_nat (length tokens))) "<pad>".
Proof.
  unfold pad_tokens.
  destruct (Z.ltb_spec (Z.of_nat (length tokens)) mfs); [reflexivity|].
  replace (Z.to_nat (mfs - Z.of_nat (length tokens))) with 0%nat by lia.
  simpl. now rewrite app_nil_r.
Qed.

Lemma map_replicate {A B : Type} (f : A -> B) (n : nat) (x : A) :
  map f (replicate n x) = replicate n (f x).
Proof. induction n; simpl; congruence. Qed.

Lemma encode_length (v : gmap string Z) (tokens : list string) ids :
  encode v tokens = Some ids -> length ids = length tokens.
Proof.
  revert ids. induction tokens as [|token rest IH]; simpl; intros ids.
  - now intros [= <-].
  - destruct (stoi_or_unk v token); [|discriminate].
    destruct (encode v rest) as [ids'|]; [|discriminate].
    intros [= <-]. simpl. f_equal. now apply IH.
Qed.

Lemma encode_None_iff (v : gmap string Z) (tokens : list string) :
  encode v tokens = None <->
  v !! "<unk>" = None /\ exists token, In token tokens /\ v !! token = None.
Proof.
  induction tokens as [|token rest IH]; simpl.
  - split; [discriminate|]. now intros (_ & token & [] & _).
  - unfold stoi_or_unk.
    destruct (v !! token) as [i|] eqn:Htoken.
    + destruct (encode v rest) as [ids|].
      * split; [discriminate|]. intros (Hunk & t & [<-|Hin] & Ht).
        -- congruence.
        -- assert (Hnone : Some ids = None) by (apply IH; eauto).
           discriminate.
      * destruct (proj1 IH eq_refl) as (Hunk & t & Hin & Ht).
        split; [|reflexivity]. intros _. eauto 6.
    + destruct (v !! "<unk>") as [unk|] eqn:Hunk.
      * destruct (encode v rest) as [ids|].
        -- split; [discriminate|]. now intros (? & _).
        -- destruct (proj1 IH eq_refl) as (Hunk' & _). discriminate.
      * split; [|reflexivity]. intros _. eauto 6.
Qed.

Lemma numericalized_length (r : MovieReviewsModelRunner) history sentence nums :
  numericalized r history sentence = Some nums ->
  Z.of_nat (length nums) =
  Z.max (Z.of_nat (length (tokenizer r history sentence))) (max_filter_size r).
Proof.
  unfold numericalized. intros H. apply encode_length in H.
  rewrite H. apply pad_tokens_length.
Qed.

(** X1.  Numericalization raises in exactly one situation, and always the
    same exception: [KeyError('<unk>')], when the vocabulary has no entry
    for ['<unk>'] and some token is not in the vocabulary.  A token that
    is missing is never itself the key of the error, and a vocabulary
    without ['<unk>'] is harmless as long as every token is known. *)
Theorem numericalize_raises_iff_unk_missing (tokens : list string)
    (w : world) (e : exn) :
  fst (numericalize tokens w) = Raise e <->
  e = KeyError "<unk>" /\
  vocab (self w) !! "<unk>" = None /\
  exists token, In token tokens /\ vocab (self w) !! token = None.
Proof.
  destruct (numericalize_spec tokens w) as [log ->]. simpl.
  destruct (encode (vocab (self w)) tokens) as [ids|] eqn:Hencode; simpl.
  - split; [discriminate|].
    intros (_ & Hnone). apply encode_None_iff in Hnone. congruence.
  - apply encode_None_iff in Hencode.
    split.
    + intros [= <-]. now split.
    + now intros (-> & _).
Qed.

(** X2.  With ['<unk>'] in the vocabulary, the numericalized sentence is
    the indices of its tokens, in order, followed by
    [max_filter_size - len(tokens)] copies of one padding index when the
    sentence is too short.  A token gets its own index or that of
    ['<unk>']; so does the padding: it gets the index of ['<pad>'], and in
    a vocabulary without ['<pad>'] the index of ['<unk>']. *)
Theorem tokens_numerical_indices_then_padding (sentence : string) (w : world)
    (unk : Z) :
  vocab (self w) !! "<unk>" = Some unk ->
  let tokens := tokenizer (self w) (tokenizer_calls w) sentence in
  let index := fun token => default unk (vocab (self w) !! token) in
  fst (tokens_numerical sentence w) =
  Ok (map index tokens ++
      replicate (Z.to_nat (max_filter_size (self w) - Z.of_nat (length tokens)))
                (index "<pad>")).
Proof.
  intros Hunk tokens index.
  destruct (tokens_numerical_spec sentence w) as [log ->]. simpl.
  unfold numericalized. fold tokens.
  rewrite (encode_has_unk _ unk) by exact Hunk. simpl.
  rewrite pad_tokens_eq, map_app, map_replicate. reflexivity.
Qed.

Lemma tokens_numerical_indices_then_padding_demo :
  vocab (self demo_world_without_pad) !! "<unk>" = Some 0%Z /\
  vocab (self demo_world_without_pad) !! "<pad>" = None /\
  fst (tokens_numerical "a film" demo_world_without_pad)
    = Ok [2; 4; 0; 0; 0]%Z.
Proof.
  split; [reflexivity|]. split; [reflexivity|].
  exact (tokens_numerical_indices_then_padding "a film"
           demo_world_without_pad 0%Z eq_refl).
Defined.

(** X3.  Padding composes: padding to a minimum length and then to
    another one is padding to the larger of the two.  In particular
    padding twice to the same length changes nothing more. *)
Theorem pad_tokens_twice (m1 m2 : Z) (tokens : list string) :
  pad_tokens m2 (pad_tokens m1 tokens) = pad_tokens (Z.max m1 m2) tokens /\
  pad_tokens m1 (pad_tokens m1 tokens) = pad_tokens m1 tokens.
Proof.
  assert (H : forall a b,
             pad_tokens b (pad_tokens a tokens) = pad_tokens (Z.max a b) tokens).
  { intros a b. rewrite !pad_tokens_eq.
    rewrite length_app, length_replicate, <- app_assoc. f_equal.
    rewrite <- replicate_add. f_equal. lia. }
  split; [apply H|]. rewrite H. f_equal. lia.
Qed.

(** ** The loops, continued: what they ask of the tokenizer and of the
       scoring function *)

Lemma numericalized_batch_app (r : MovieReviewsModelRunner) history
    (l1 l2 : list string) :
  numericalized_batch r history (l1 ++ l2) =
  match numericalized_batch r history l1 with
  | Some b1 =>
      match numericalized_batch r (history ++ l1) l2 with
      | Some b2 => Some (b1 ++ b2)
      | None => None
      end
  | None => None
  end.
Proof.
  revert history. induction l1 as [|s rest IH]; intros history; simpl.
  - rewrite app_nil_r. now destruct (numericalized_batch r history l2).
  - destruct (numericalized r history s) as [nums|]; [|reflexivity].
    rewrite IH, <- app_assoc. simpl.
    destruct (numericalized_batch r (history ++ [s]) rest); [|reflexivity].
    now destruct (numericalized_batch r (history ++ s :: rest) l2).
Qed.

Lemma numericalized_batch_encodes (r : MovieReviewsModelRunner) history
    (sentences : list string) batch :
  numericalized_batch r history sentences = Some batch ->
  Forall2 (encodes r) sentences batch.
Proof.
  revert history batch.
  induction sentences as [|s rest IH]; simpl; intros history batch.
  - intros [= <-]. constructor.
  - destruct (numericalized r history s) as [nums|] eqn:Hnums; [|discriminate].
    destruct (numericalized_batch r (history ++ [s]) rest) as [b|] eqn:Hb;
      [|discriminate].
    intros [= <-]. constructor; [eexists; exact Hnums|]. eapply IH, Hb.
Qed.

Lemma numericalized_batch_long (r : MovieReviewsModelRunner) history
    (sentences : list string) batch :
  numericalized_batch r history sentences = Some batch ->
  Forall (fun nums => (max_filter_size r <= Z.of_nat (length nums))%Z) batch.
Proof.
  revert history batch.
  induction sentences as [|s rest IH]; simpl; intros history batch.
  - intros [= <-]. constructor.
  - destruct (numericalized r history s) as [nums|] eqn:Hnums; [|discriminate].
    destruct (numericalized_batch r (history ++ [s]) rest) as [b|] eqn:Hb;
      [|discriminate].
    intros [= <-]. constructor; [|eapply IH, Hb].
    apply numericalized_length in Hnums. lia.
Qed.

Lemma numericalized_batch_has_unk (r : MovieReviewsModelRunner) history
    (sentences : list string) :
  has_unk r -> is_Some (numericalized_batch r history sentences).
Proof.
  intros Hunk. revert history.
  induction sentences as [|s rest IH]; simpl; intros history; [eauto|].
  destruct (numericalized_has_unk r history s Hunk) as [nums ->].
  destruct (IH (history ++ [s])) as [b ->]. eauto.
Qed.

(** The loop of the LIME notebook computes [numericalized_batch]; it calls
    the tokenizer and the vocabulary, never the scoring function. *)
Lemma loop_lime_spec (sentences : list string) acc (w : world) :
  exists calls log,
    lime_text.loop sentences acc w =
    (match numericalized_batch (self w) (tokenizer_calls w) sentences with
     | Some batch => Ok (acc ++ batch)
     | None => Raise (KeyError "<unk>")
     end,
     World (self w) (tokenizer_calls w ++ calls) (vocab_accesses w ++ log)
           (run_model_calls w)) /\
    (is_Some (numericalized_batch (self w) (tokenizer_calls w) sentences) ->
     calls = sentences).
Proof.
  revert acc w. induction sentences as [|s rest IH]; intros acc w.
  - exists [], []. simpl. rewrite !app_nil_r. split; [now destruct w|auto].
  - rewrite loop_lime_cons.
    destruct (tokens_numerical_spec s w) as [log1 ->]. simpl.
    destruct (numericalized (self w) (tokenizer_calls w) s) as [nums|]; simpl.
    + match goal with |- context [lime_text.loop rest ?a ?w1] =>
        destruct (IH a w1) as (calls & log & -> & Hcalls) end.
      simpl in *. exists (s :: calls), (log1 ++ log).
      rewrite <- !app_assoc. simpl.
      destruct (numericalized_batch _ _ rest) as [batch|]; simpl.
      * rewrite <- app_assoc. split; [reflexivity|].
        intros _. f_equal. eauto.
      * split; [reflexivity|]. now intros [? ?].
    + exists [s], log1. split; [reflexivity|]. now intros [? ?].
Qed.

(** When the loop of the RISE notebook ends, it has called the tokenizer
    once per sentence and the scoring function once per sentence, on the
    batch of that one numericalized sentence. *)
Lemma loop_rise_spec sigmoid (sentences : list string) out0 (w : world)
    out w' :
  rise_text.loop sigmoid sentences out0 w = (Ok out, w') ->
  exists batch log,
    numericalized_batch (self w) (tokenizer_calls w) sentences = Some batch /\
    w' = World (self w) (tokenizer_calls w ++ sentences)
               (vocab_accesses w ++ log)
               (run_model_calls w ++ map (fun nums => [nums]) batch).
Proof.
  revert out0 w. induction sentences as [|s rest IH]; intros out0 w.
  - simpl. intros [= <- <-]. exists [], []. simpl. rewrite !app_nil_r.
    split; [reflexivity|now destruct w].
  - rewrite loop_rise_cons.
    destruct (tokens_numerical_spec s w) as [log1 ->]. simpl.
    destruct (numericalized (self w) (tokenizer_calls w) s) as [nums|]; simpl;
      [|discriminate].
    destruct (np_float _) as [pred|e]; [|discriminate].
    intros Hrest. apply IH in Hrest as (batch & log & Hbatch & ->).
    simpl in *. rewrite Hbatch.
    exists (nums :: batch), (log1 ++ log).
    split; [reflexivity|]. rewrite <- !app_assoc. reflexivity.
Qed.

(** Whether it ends or raises, every call of the scoring function by the
    loop of the RISE notebook is on a batch of one sequence, of at least
    [max_filter_size] indices; there is at most one call per sentence. *)
Lemma loop_rise_calls sigmoid (sentences : list string) out0 (w : world) :
  exists new,
    run_model_calls (snd (rise_text.loop sigmoid sentences out0 w)) =
      run_model_calls w ++ new /\
    (length new <= length sentences)%nat /\
    Forall (fun batch =>
              exists nums,
                batch = [nums] /\
                (max_filter_size (self w) <= Z.of_nat (length nums))%Z)
           new.
Proof.
  revert out0 w. induction sentences as [|s rest IH]; intros out0 w.
  - exists []. simpl. rewrite app_nil_r. auto.
  - rewrite loop_rise_cons.
    destruct (tokens_numerical_spec s w) as [log1 ->]. simpl.
    destruct (numericalized (self w) (tokenizer_calls w) s) as [nums|]
      eqn:Hnums; simpl.
    + apply numericalized_length in Hnums.
      assert (Hlong : exists nums', [nums] = [nums'] /\
                (max_filter_size (self w) <= Z.of_nat (length nums'))%Z)
        by (exists nums; split; [reflexivity|lia]).
      destruct (np_float _) as [pred|e]; simpl.
      * match goal with |- context [rise_text.loop sigmoid rest ?o ?w1] =>
          destruct (IH o w1) as (new & -> & Hlen & Hnew) end.
        simpl in *. exists ([nums] :: new). rewrite <- app_assoc.
        split; [reflexivity|]. split; [simpl; lia|]. now constructor.
      * exists [[nums]]. split; [reflexivity|]. split; [simpl; lia|].
        now constructor.
    + exists []. rewrite app_nil_r. split; [reflexivity|].
      split; [simpl; lia|constructor].
Qed.

(** ** The calls, continued *)

Lemma lime_postprocess_run sigmoid (logits : ndarray) (w : world) :
  (pred ← lift (np_apply_along_axis_1 (sigmoid_1d sigmoid) logits);
   positivity ← lift (np_index_column pred 0);
   two_classes positivity) w =
  (lime_scores sigmoid logits, w).
Proof.
  unfold mbind, M_bind, lift, lime_scores, two_classes.
  destruct (np_apply_along_axis_1 _ logits) as [pred|e]; [|reflexivity].
  destruct (np_index_column pred 0) as [positivity|e]; reflexivity.
Qed.

(** The whole call of the LIME notebook, outcome and world. *)
Lemma lime_call_spec sigmoid (sentences : sentences_arg) (w : world) :
  exists calls log,
    match numericalized_batch (self w) (tokenizer_calls w)
            (ensure_batch_axis sentences) with
    | Some batch =>
        lime_text.__call__ sigmoid sentences w =
        (lime_scores sigmoid (run_model (self w) (run_model_calls w) batch),
         World (self w) (tokenizer_calls w ++ ensure_batch_axis sentences)
               (vocab_accesses w ++ log) (run_model_calls w ++ [batch]))
    | None =>
        lime_text.__call__ sigmoid sentences w =
        (Raise (KeyError "<unk>"),
         World (self w) (tokenizer_calls w ++ calls)
               (vocab_accesses w ++ log) (run_model_calls w))
    end.
Proof.
  rewrite lime_call_unfold.
  destruct (loop_lime_spec (ensure_batch_axis sentences) [] w)
    as (calls & log & -> & Hcalls).
  exists calls, log.
  destruct (numericalized_batch _ _ _) as [batch|]; [|reflexivity].
  simpl. rewrite lime_postprocess_run, Hcalls by eauto. reflexivity.
Qed.

Lemma lime_scores_exceptions sigmoid (logits : ndarray) (e : exn) :
  lime_scores sigmoid logits = Raise e -> e = ValueError \/ e = IndexError.
Proof.
  unfold lime_scores, np_apply_along_axis_1, np_index_column.
  destruct (fst (shape logits)); [intros [= <-]; auto|]. simpl.
  destruct (Nat.ltb _ _); [|intros [= <-]; auto].
  unfold one_minus. now rewrite np_transpose_pair.
Qed.

(** X4.  The LIME notebook's version calls the tokenizer once per
    sentence, in order, and then the scoring function exactly once, on the
    batch of all the numericalized sentences; that one call is made also
    for the empty batch and also when the post-processing then raises.
    Only when numericalization raises [KeyError] is the scoring function
    not called at all. *)
Theorem lime_call_scores_the_batch_once (sigmoid : R -> R)
    (sentences : sentences_arg) (w : world) :
  let run := lime_text.__call__ sigmoid sentences w in
  ((forall key, fst run <> Raise (KeyError key)) ->
   tokenizer_calls (snd run) =
     tokenizer_calls w ++ ensure_batch_axis sentences /\
   exists batch,
     numericalized_batch (self w) (tokenizer_calls w)
       (ensure_batch_axis sentences) = Some batch /\
     run_model_calls (snd run) = run_model_calls w ++ [batch]) /\
  (forall key, fst run = Raise (KeyError key) ->
   run_model_calls (snd run) = run_model_calls w).
Proof.
  intros run. unfold run.
  destruct (lime_call_spec sigmoid sentences w) as (calls & log & Hrun).
  destruct (numericalized_batch _ _ _) as [batch|]; rewrite Hrun; simpl.
  - split.
    + intros _. split; [reflexivity|]. now exists batch.
    + intros key Hkey. apply lime_scores_exceptions in Hkey as [|];
        discriminate.
  - split; [|reflexivity]. intros Hno. now destruct (Hno "<unk>").
Qed.

Lemma lime_call_scores_the_batch_once_demo :
  (forall key,
     fst (lime_text.__call__ expit (Seq []) demo_world)
       <> Raise (KeyError key)) /\
  tokenizer_calls (snd (lime_text.__call__ expit (Seq []) demo_world)) = [] /\
  run_model_calls (snd (lime_text.__call__ expit (Seq []) demo_world)) = [[]].
Proof.
  assert (Hno : forall key,
             fst (lime_text.__call__ expit (Seq []) demo_world)
               <> Raise (KeyError key)) by (intros key; discriminate).
  split; [exact Hno|].
  destruct (proj1 (lime_call_scores_the_batch_once expit (Seq []) demo_world)
              Hno) as (Htok & batch & Hbatch & Hcalls).
  split; [exact Htok|].
  injection Hbatch as <-. exact Hcalls.
Defined.

(** X5.  Whenever the RISE notebook's version returns, it returns an N×2
    array for the N sentences, whatever the shapes the scoring function
    answered with; it has called the tokenizer once per sentence, in
    order, and the scoring function N times, once per sentence and in
    order, each time on the batch of that one numericalized sentence. *)
Theorem rise_call_scores_each_sentence_once (sigmoid : R -> R)
    (sentences : sentences_arg) (w : world) (out : ndarray) (w' : world) :
  rise_text.__call__ sigmoid sentences w = (Ok out, w') ->
  shape out = (length (ensure_batch_axis sentences), 2%nat) /\
  well_shaped out /\
  tokenizer_calls w' = tokenizer_calls w ++ ensure_batch_axis sentences /\
  exists batch,
    numericalized_batch (self w) (tokenizer_calls w)
      (ensure_batch_axis sentences) = Some batch /\
    run_model_calls w' =
      run_model_calls w ++ map (fun nums => [nums]) batch.
Proof.
  intros Hcall.
  apply rise_call_Ok_inv in Hcall as (positivity & Hloop & ->).
  pose proof Hloop as Hrows.
  apply loop_rise_Ok in Hrows as (new & -> & Hrows).
  apply loop_rise_spec in Hloop as (batch & log & Hbatch & ->).
  simpl. rewrite <- (Forall2_length _ _ _ Hrows).
  split; [reflexivity|]. split; [|split; [reflexivity|]].
  - rewrite (Forall2_length _ _ _ Hrows). apply score_rows_well_shaped.
  - now exists batch.
Qed.

Lemma rise_call_scores_each_sentence_once_demo :
  rise_text.__call__ expit demo_sentences demo_world =
    (Ok demo_scores,
     snd (rise_text.__call__ expit demo_sentences demo_world)) /\
  tokenizer_calls (snd (rise_text.__call__ expit demo_sentences demo_world))
    = ["a good film"; "bad"] /\
  run_model_calls (snd (rise_text.__call__ expit demo_sentences demo_world))
    = [[[2; 3; 4; 1; 1]]; [[0; 1; 1; 1; 1]]]%Z.
Proof.
  assert (Hcall : rise_text.__call__ expit demo_sentences demo_world =
            (Ok demo_scores,
             snd (rise_text.__call__ expit demo_sentences demo_world)))
    by (apply outcome_and_world; exact demo_rise_call).
  split; [exact Hcall|].
  destruct (rise_call_scores_each_sentence_once expit demo_sentences
              demo_world demo_scores _ Hcall)
    as (_ & _ & Htok & batch & Hbatch & Hcalls).
  split; [exact Htok|].
  injection Hbatch as <-. exact Hcalls.
Defined.

Lemma rise_call_world sigmoid (sentences : sentences_arg) (w : world) :
  snd (rise_text.__call__ sigmoid sentences w) =
  snd (rise_text.loop sigmoid (ensure_batch_axis sentences) [] w).
Proof.
  unfold rise_text.__call__, mbind, M_bind.
  destruct (rise_text.loop _ _ _ _) as [[out|e] w1]; [|reflexivity].
  now rewrite two_classes_spec.
Qed.

(** X6.  An adapter constructed with [max_filter_size = m] never hands the
    scoring function a sequence of fewer than [m] indices: in both
    notebooks, for every input, and whether the call returns or raises,
    every sequence of every batch that the call passes to the scoring
    function has at least [m] indices. *)
Theorem scoring_function_never_sees_short_sequences (lib : libraries)
    (model word_vectors : string) (m : Z) (sigmoid : R -> R)
    (sentences : sentences_arg) (w : world) :
  self w = __init__ lib model word_vectors m ->
  let after_lime := snd (lime_text.__call__ sigmoid sentences w) in
  let after_rise := snd (rise_text.__call__ sigmoid sentences w) in
  (exists new,
     run_model_calls after_lime = run_model_calls w ++ new /\
     Forall (Forall (fun nums => (m <= Z.of_nat (length nums))%Z)) new) /\
  (exists new,
     run_model_calls after_rise = run_model_calls w ++ new /\
     Forall (Forall (fun nums => (m <= Z.of_nat (length nums))%Z)) new).
Proof.
  intros Hself after_lime after_rise.
  assert (Hm : max_filter_size (self w) = m) by now rewrite Hself.
  split.
  - unfold after_lime.
    destruct (lime_call_spec sigmoid sentences w) as (calls & log & Hrun).
    destruct (numericalized_batch _ _ _) as [batch|] eqn:Hbatch;
      rewrite Hrun; simpl.
    + exists [batch]. split; [reflexivity|].
      constructor; [|constructor].
      rewrite <- Hm. eapply numericalized_batch_long, Hbatch.
    + exists []. now rewrite app_nil_r.
  - unfold after_rise. rewrite rise_call_world.
    destruct (loop_rise_calls sigmoid (ensure_batch_axis sentences) [] w)
      as (new & Hcalls & _ & Hnew).
    exists new. split; [exact Hcalls|].
    eapply Forall_impl; [exact Hnew|].
    intros batch (nums & -> & Hlong). constructor; [lia|constructor].
Qed.

Lemma scoring_function_never_sees_short_sequences_demo :
  self demo_world = model_runner demo_libraries /\
  (exists new,
     run_model_calls (snd (lime_text.__call__ expit (Str "bad") demo_world))
       = new /\
     Forall (Forall (fun nums => (5 <= Z.of_nat (length nums))%Z)) new) /\
  (exists new,
     run_model_calls (snd (rise_text.__call__ expit (Str "bad") demo_world))
       = new /\
     Forall (Forall (fun nums => (5 <= Z.of_nat (length nums))%Z)) new).
Proof.
  split; [reflexivity|].
  exact (scoring_function_never_sees_short_sequences demo_libraries
           model_path word_vector_path 5 expit (Str "bad") demo_world
           eq_refl).
Defined.

Lemma Forall2_map_r_all_in {A B : Type} (Q : A -> B -> Prop) (f : A -> B)
    (l : list A) :
  (forall x, In x l -> Q x (f x)) -> Forall2 Q l (map f l).
Proof.
  induction l as [|x l IH]; simpl; intros H; constructor; auto.
Qed.

Lemma lime_scores_Ok sigmoid (logits : ndarray) :
  fst (shape logits) <> 0%nat ->
  (0 < length (hd [] (map (sigmoid_1d sigmoid) (rows logits))))%nat ->
  lime_scores sigmoid logits =
  Ok (NdArray (length (rows logits), 2%nat)
              (map score_row
                   (column 0 (map (sigmoid_1d sigmoid) (rows logits))))).
Proof.
  intros Hrows Hcols. unfold lime_scores, np_apply_along_axis_1.
  destruct (fst (shape logits)) as [|n]; [congruence|].
  cbv zeta. unfold np_index_column. cbn [shape rows snd fst].
  apply Nat.ltb_lt in Hcols. rewrite Hcols.
  unfold one_minus. rewrite np_transpose_pair.
  unfold column. now rewrite !length_map.
Qed.

Lemma lime_scores_cases sigmoid (logits : ndarray) :
  well_shaped logits ->
  (fst (shape logits) = 0%nat -> lime_scores sigmoid logits = Raise ValueError) /\
  (fst (shape logits) <> 0%nat -> snd (shape logits) = 0%nat ->
   lime_scores sigmoid logits = Raise IndexError) /\
  (fst (shape logits) <> 0%nat -> snd (shape logits) <> 0%nat ->
   lime_scores sigmoid logits =
   Ok (NdArray (fst (shape logits), 2%nat)
               (map (fun logit_row => score_row (sigmoid (nth 0 logit_row 0%R)))
                    (rows logits)))).
Proof.
  intros [Hrows Hcols]. split; [|split].
  - intros H0. unfold lime_scores, np_apply_along_axis_1. now rewrite H0.
  - intros Hne H0. unfold lime_scores, np_apply_along_axis_1.
    destruct (fst (shape logits)) as [|n]; [congruence|].
    cbv zeta. unfold np_index_column. cbn [shape rows snd fst].
    destruct (rows logits) as [|r0 rest]; [discriminate|].
    apply Forall_inv in Hcols. simpl. unfold sigmoid_1d at 1.
    now rewrite length_map, Hcols, H0.
  - intros Hne Hc. rewrite lime_scores_Ok; [|exact Hne|].
    + rewrite Hrows. do 2 f_equal.
      unfold column. rewrite !map_map.
      apply map_ext_in. intros r Hr.
      rewrite List.Forall_forall in Hcols. specialize (Hcols r Hr).
      destruct r as [|l r]; [simpl in Hcols; congruence|reflexivity].
    + destruct (rows logits) as [|r0 rest]; [simpl in Hrows; congruence|].
      apply Forall_inv in Hcols. simpl. unfold sigmoid_1d.
      rewrite length_map, Hcols. lia.
Qed.

(** X7.  The LIME notebook's version trusts the answer of the scoring
    function.  Once the sentences are numericalized, for the logits that
    the scoring function returns for the batch:
    - no rows: [ValueError] (from [np.apply_along_axis]);
    - rows but no columns: [IndexError] (from [pred[:, 0]]);
    - otherwise the call returns one row per row of the logits, however
      many sentences there were, made of the first logit of that row;
      further columns of the logits are ignored. *)
Theorem lime_call_follows_the_logits (sigmoid : R -> R)
    (sentences : sentences_arg) (w : world) (batch : list (list Z)) :
  numericalized_batch (self w) (tokenizer_calls w)
    (ensure_batch_axis sentences) = Some batch ->
  let logits := run_model (self w) (run_model_calls w) batch in
  well_shaped logits ->
  let outcome := fst (lime_text.__call__ sigmoid sentences w) in
  (fst (shape logits) = 0%nat -> outcome = Raise ValueError) /\
  (fst (shape logits) <> 0%nat -> snd (shape logits) = 0%nat ->
   outcome = Raise IndexError) /\
  (fst (shape logits) <> 0%nat -> snd (shape logits) <> 0%nat ->
   exists out,
     outcome = Ok out /\
     shape out = (fst (shape logits), 2%nat) /\
     Forall2
       (fun logit_row row =>
          exists logit rest,
            logit_row = logit :: rest /\
            row = [(1 - sigmoid logit)%R; sigmoid logit])
       (rows logits) (rows out)).
Proof.
  intros Hbatch logits Hshaped outcome.
  assert (Houtcome : outcome = lime_scores sigmoid logits).
  { unfold outcome.
    destruct (lime_call_spec sigmoid sentences w) as (calls & log & Hrun).
    rewrite Hbatch in Hrun. now rewrite Hrun. }
  rewrite Houtcome.
  destruct (lime_scores_cases sigmoid logits Hshaped) as (H0 & H1 & H2).
  split; [exact H0|]. split; [exact H1|].
  intros Hrows Hcols. eexists. split; [exact (H2 Hrows Hcols)|].
  split; [reflexivity|]. simpl.
  apply Forall2_map_r_all_in.
  intros logit_row Hin. destruct Hshaped as [_ Hall].
  rewrite List.Forall_forall in Hall. specialize (Hall _ Hin).
  destruct logit_row as [|logit rest]; [simpl in Hall; congruence|].
  now exists logit, rest.
Qed.

Lemma lime_call_follows_the_logits_demo :
  numericalized_batch (self three_rows_world) []
    ["a good film"; "bad"] = Some [[2; 3; 4; 1; 1]; [0; 1; 1; 1; 1]]%Z /\
  well_shaped (NdArray (3%nat, 2%nat) [[0; 7]; [1; 8]; [2; 9]]%R) /\
  exists out,
    fst (lime_text.__call__ expit demo_sentences three_rows_world) = Ok out /\
    shape out = (3%nat, 2%nat).
Proof.
  assert (Hshaped :
            well_shaped (NdArray (3%nat, 2%nat) [[0; 7]; [1; 8]; [2; 9]]%R))
    by (split; [reflexivity|repeat constructor]).
  split; [reflexivity|]. split; [exact Hshaped|].
  destruct (lime_call_follows_the_logits expit demo_sentences
              three_rows_world [[2; 3; 4; 1; 1]; [0; 1; 1; 1; 1]]%Z
              eq_refl Hshaped) as (_ & _ & Hok).
  destruct Hok as (out & Hout & Hshape & _); [discriminate|discriminate|].
  exists out. split; [exact Hout|exact Hshape].
Defined.

Lemma np_float_sigmoid_Raise sigmoid (logits : ndarray) (e : exn) :
  np_float (sigmoid_2d sigmoid logits) = Raise e ->
  e = TypeError /\ forall logit, rows logits <> [[logit]].
Proof.
  unfold np_float, sigmoid_2d, sigmoid_1d. simpl.
  destruct (rows logits) as [|[|l [|]] [|]]; simpl; try discriminate;
    intros [= <-]; split; try reflexivity; intros logit; discriminate.
Qed.

Lemma loop_rise_exceptions sigmoid (sentences : list string) out0 (w : world)
    (e : exn) w' :
  rise_text.loop sigmoid sentences out0 w = (Raise e, w') ->
  (e = KeyError "<unk>" /\ ~ has_unk (self w)) \/
  (e = TypeError /\
   exists sentence nums history,
     In sentence sentences /\
     encodes (self w) sentence nums /\
     forall logit, rows (run_model (self w) history [nums]) <> [[logit]]).
Proof.
  revert out0 w. induction sentences as [|s rest IH]; intros out0 w.
  - discriminate.
  - rewrite loop_rise_cons.
    destruct (tokens_numerical_spec s w) as [log1 ->]. simpl.
    destruct (numericalized (self w) (tokenizer_calls w) s) as [nums|]
      eqn:Hnums; simpl.
    + destruct (np_float _) as [pred|e'] eqn:Hfloat.
      * intros Hrest. apply IH in Hrest as [Hkey|Htype]; simpl in *.
        -- now left.
        -- right. destruct Htype as (-> & s' & nums' & h & Hin & Henc & Hbad).
           split; [reflexivity|]. exists s', nums', h. auto.
      * intros [= <- <-]. right.
        apply np_float_sigmoid_Raise in Hfloat as [-> Hbad].
        split; [reflexivity|].
        exists s, nums, (run_model_calls w).
        split; [now left|]. split; [eexists; exact Hnums|exact Hbad].
    + intros [= <- <-]. left. split; [reflexivity|].
      intros Hunk.
      destruct (numericalized_has_unk (self w) (tokenizer_calls w) s Hunk)
        as [nums Hsome].
      congruence.
Qed.

(** X8.  The exceptions raised by [__call__]'s own statements, the
    tokenizer and the scoring function being callables that return: an
    exception raised inside [self.tokenizer] or [self.run_model] is not
    caught by [__call__], leaves it as it is, and is not in this list.
    - LIME notebook: [KeyError('<unk>')], only with a vocabulary without
      ['<unk>']; [ValueError]; [IndexError]; nothing else.
    - RISE notebook: [KeyError('<unk>')], only with a vocabulary without
      ['<unk>']; [TypeError], only when the scoring function answered the
      batch of one numericalized sentence with something else than one
      value; nothing else.
    In particular a vocabulary with ['<unk>'] rules out [KeyError], and
    stacking the two columns never fails. *)
Theorem call_raises_only (sigmoid : R -> R) (sentences : sentences_arg)
    (w : world) (e : exn) :
  (fst (lime_text.__call__ sigmoid sentences w) = Raise e ->
   (e = KeyError "<unk>" /\ ~ has_unk (self w)) \/
   e = ValueError \/ e = IndexError) /\
  (fst (rise_text.__call__ sigmoid sentences w) = Raise e ->
   (e = KeyError "<unk>" /\ ~ has_unk (self w)) \/
   (e = TypeError /\
    exists sentence nums history,
      In sentence (ensure_batch_axis sentences) /\
      encodes (self w) sentence nums /\
      forall logit, rows (run_model (self w) history [nums]) <> [[logit]])).
Proof.
  split.
  - destruct (lime_call_spec sigmoid sentences w) as (calls & log & Hrun).
    destruct (numericalized_batch _ _ _) as [batch|] eqn:Hbatch;
      rewrite Hrun; simpl.
    + intros He. right. eapply lime_scores_exceptions, He.
    + intros [= <-]. left. split; [reflexivity|]. intros Hunk.
      destruct (numericalized_batch_has_unk (self w) (tokenizer_calls w)
                  (ensure_batch_axis sentences) Hunk) as [b Hb].
      congruence.
  - unfold rise_text.__call__, mbind, M_bind.
    destruct (rise_text.loop _ _ _ _) as [[out|e'] w1] eqn:Hloop.
    + rewrite two_classes_spec. discriminate.
    + simpl. intros [= ->]. eapply loop_rise_exceptions, Hloop.
Qed.

(** The empty batch in the LIME notebook, and in the RISE notebook a
    scoring function that answers one sentence with a 3×2 matrix. *)
Lemma call_raises_only_demo :
  fst (lime_text.__call__ expit (Seq []) demo_world) = Raise ValueError /\
  fst (rise_text.__call__ expit demo_sentences three_rows_world) =
    Raise TypeError /\
  ((ValueError = KeyError "<unk>" /\ ~ has_unk (self demo_world)) \/
   ValueError = ValueError \/ ValueError = IndexError) /\
  exists sentence nums history,
    In sentence (ensure_batch_axis demo_sentences) /\
    encodes (self three_rows_world) sentence nums /\
    forall logit,
      rows (run_model (self three_rows_world) history [nums]) <> [[logit]].
Proof.
  assert (Hlime : fst (lime_text.__call__ expit (Seq []) demo_world) =
                  Raise ValueError) by reflexivity.
  assert (Hrise : fst (rise_text.__call__ expit demo_sentences
                         three_rows_world) = Raise TypeError)
    by reflexivity.
  split; [exact Hlime|]. split; [exact Hrise|]. split.
  - exact (proj1 (call_raises_only expit (Seq []) demo_world ValueError)
             Hlime).
  - destruct (proj2 (call_raises_only expit demo_sentences three_rows_world
                       TypeError) Hrise) as [[Hkey _]|[_ Hbad]].
    + discriminate Hkey.
    + exact Hbad.
Defined.

(** ** Batches in pieces *)

Lemma loop_rise_acc sigmoid (sentences : list string) out0 (w : world) :
  rise_text.loop sigmoid sentences out0 w =
  match rise_text.loop sigmoid sentences [] w with
  | (Ok new, w') => (Ok (out0 ++ new), w')
  | (Raise e, w') => (Raise e, w')
  end.
Proof.
  revert out0 w. induction sentences as [|s rest IH]; intros out0 w.
  - simpl. unfold mret, M_ret. now rewrite app_nil_r.
  - rewrite !loop_rise_cons.
    destruct (tokens_numerical s w) as [[nums|e] w1]; [|reflexivity].
    cbv zeta. destruct (np_float _) as [pred|e]; [|reflexivity].
    rewrite (IH (out0 ++ [pred])), (IH ([] ++ [pred])).
    destruct (rise_text.loop sigmoid rest [] _) as [[new|e] w2];
      [|reflexivity].
    now rewrite <- app_assoc.
Qed.

Lemma loop_rise_app sigmoid (l1 l2 : list string) out0 (w : world) :
  rise_text.loop sigmoid (l1 ++ l2) out0 w =
  match rise_text.loop sigmoid l1 out0 w with
  | (Ok out1, w1) => rise_text.loop sigmoid l2 out1 w1
  | (Raise e, w1) => (Raise e, w1)
  end.
Proof.
  revert out0 w. induction l1 as [|s rest IH]; intros out0 w.
  - reflexivity.
  - simpl app. rewrite !loop_rise_cons.
    destruct (tokens_numerical s w) as [[nums|e] w1]; [|reflexivity].
    cbv zeta. destruct (np_float _) as [pred|e]; [|reflexivity].
    apply IH.
Qed.

Lemma rise_call_unfold sigmoid (sentences : sentences_arg) (w : world) :
  rise_text.__call__ sigmoid sentences w =
  match rise_text.loop sigmoid (ensure_batch_axis sentences) [] w with
  | (Ok positivity, w') =>
      (Ok (NdArray (length positivity, 2%nat) (map score_row positivity)), w')
  | (Raise e, w') => (Raise e, w')
  end.
Proof.
  unfold rise_text.__call__, mbind, M_bind.
  destruct (rise_text.loop _ _ _ _) as [[positivity|e] w1]; [|reflexivity].
  apply two_classes_spec.
Qed.

(** X9.  The RISE notebook's version can be fed a batch in pieces.  A call
    on the sentences [l1 ++ l2] is the call on [l1] followed by the call
    on [l2]: same exception if one of the two raises (the second is not
    made if the first raises), and otherwise the rows of the first array
    followed by the rows of the second, and the same world at the end. *)
Theorem rise_call_in_pieces (sigmoid : R -> R) (l1 l2 : list string)
    (w : world) :
  rise_text.__call__ sigmoid (Seq (l1 ++ l2)) w =
  match rise_text.__call__ sigmoid (Seq l1) w with
  | (Raise e, w1) => (Raise e, w1)
  | (Ok out1, w1) =>
      match rise_text.__call__ sigmoid (Seq l2) w1 with
      | (Raise e, w2) => (Raise e, w2)
      | (Ok out2, w2) =>
          (Ok (NdArray ((fst (shape out1) + fst (shape out2))%nat, 2%nat)
                       (rows out1 ++ rows out2)), w2)
      end
  end.
Proof.
  rewrite !rise_call_unfold. simpl ensure_batch_axis.
  rewrite loop_rise_app.
  destruct (rise_text.loop sigmoid l1 [] w) as [[p1|e] w1]; [|reflexivity].
  rewrite rise_call_unfold. simpl ensure_batch_axis.
  rewrite loop_rise_acc.
  destruct (rise_text.loop sigmoid l2 [] w1) as [[p2|e] w2]; [|reflexivity].
  simpl. now rewrite length_app, map_app.
Qed.

Lemma lime_scores_independent sigmoid (logit : list Z -> R)
    (batch : list (list Z)) :
  batch <> [] ->
  lime_scores sigmoid
    (NdArray (length batch, 1%nat) (map (fun nums => [logit nums]) batch)) =
  Ok (NdArray (length batch, 2%nat)
              (map (fun nums => score_row (sigmoid (logit nums))) batch)).
Proof.
  intros Hne. rewrite lime_scores_Ok.
  - simpl. unfold column. now rewrite length_map, !map_map.
  - simpl. now destruct batch.
  - simpl. destruct batch; [congruence|]. simpl. lia.
Qed.

Lemma lime_call_independent sigmoid (logit : list Z -> R)
    (sentences : list string) (w : world) :
  scores_independently (self w) logit ->
  sentences <> [] ->
  exists calls log,
    match numericalized_batch (self w) (tokenizer_calls w) sentences with
    | Some batch =>
        lime_text.__call__ sigmoid (Seq sentences) w =
        (Ok (NdArray (length batch, 2%nat)
                     (map (fun nums => score_row (sigmoid (logit nums))) batch)),
         World (self w) (tokenizer_calls w ++ sentences)
               (vocab_accesses w ++ log) (run_model_calls w ++ [batch]))
    | None =>
        lime_text.__call__ sigmoid (Seq sentences) w =
        (Raise (KeyError "<unk>"),
         World (self w) (tokenizer_calls w ++ calls)
               (vocab_accesses w ++ log) (run_model_calls w))
    end.
Proof.
  intros Hind Hne.
  destruct (lime_call_spec sigmoid (Seq sentences) w) as (calls & log & Hrun).
  exists calls, log. simpl in Hrun.
  destruct (numericalized_batch _ _ _) as [batch|] eqn:Hbatch; [|exact Hrun].
  rewrite Hrun, Hind, lime_scores_independent; [reflexivity|].
  apply numericalized_batch_encodes, Forall2_length in Hbatch.
  destruct batch; [|discriminate]. now destruct sentences.
Qed.

(** X10.  The LIME notebook's version can be fed a batch in pieces when
    the scoring function scores every sentence independently: for
    non-empty [l1] and [l2], the outcome of a call on [l1 ++ l2] is that
    of the call on [l1] followed by the call on [l2]; the same exception
    if one of them raises, and otherwise the rows of the first array
    followed by the rows of the second. *)
Theorem lime_call_in_pieces (sigmoid : R -> R) (logit : list Z -> R)
    (l1 l2 : list string) (w : world) :
  scores_independently (self w) logit ->
  l1 <> [] -> l2 <> [] ->
  fst (lime_text.__call__ sigmoid (Seq (l1 ++ l2)) w) =
  match lime_text.__call__ sigmoid (Seq l1) w with
  | (Raise e, _) => Raise e
  | (Ok out1, w1) =>
      match fst (lime_text.__call__ sigmoid (Seq l2) w1) with
      | Raise e => Raise e
      | Ok out2 =>
          Ok (NdArray ((fst (shape out1) + fst (shape out2))%nat, 2%nat)
                      (rows out1 ++ rows out2))
      end
  end.
Proof.
  intros Hind H1 H2.
  assert (H12 : l1 ++ l2 <> []) by (now destruct l1).
  destruct (lime_call_independent sigmoid logit (l1 ++ l2) w Hind H12)
    as (calls & log & Hboth).
  destruct (lime_call_independent sigmoid logit l1 w Hind H1)
    as (calls1 & log1 & Hfirst).
  rewrite numericalized_batch_app in Hboth.
  destruct (numericalized_batch (self w) (tokenizer_calls w) l1) as [b1|].
  - rewrite Hfirst.
    match goal with |- context [lime_text.__call__ sigmoid (Seq l2) ?w1] =>
      destruct (lime_call_independent sigmoid logit l2 w1 Hind H2)
        as (calls2 & log2 & Hsecond) end.
    simpl in Hsecond.
    destruct (numericalized_batch (self w) (tokenizer_calls w ++ l1) l2)
      as [b2|]; rewrite Hboth, Hsecond; simpl; [|reflexivity].
    now rewrite length_app, map_app.
  - now rewrite Hboth, Hfirst.
Qed.

Lemma lime_call_in_pieces_demo :
  scores_independently (self demo_world) demo_logit /\
  ["a good film"] <> [] /\ ["bad"] <> [] /\
  fst (lime_text.__call__ expit (Seq (["a good film"] ++ ["bad"])) demo_world)
  = Ok (NdArray (2%nat, 2%nat)
          ([[(1 - expit 11)%R; expit 11]] ++ [[(1 - expit 4)%R; expit 4]])).
Proof.
  assert (H1 : ["a good film"] <> []) by discriminate.
  assert (H2 : ["bad"] <> []) by discriminate.
  split; [exact demo_scores_independently|]. split; [exact H1|].
  split; [exact H2|].
  exact (lime_call_in_pieces expit demo_logit ["a good film"] ["bad"]
           demo_world demo_scores_independently H1 H2).
Defined.

(** ** Labels and columns *)

Lemma score_rows_columns (n : nat) (positivity : list R) :
  np_index_column (NdArray (n, 2%nat) (map score_row positivity)) 1
    = Ok positivity /\
  np_index_column (NdArray (n, 2%nat) (map score_row positivity)) 0
    = Ok (one_minus positivity).
Proof.
  unfold np_index_column, column, one_minus. simpl. rewrite !map_map. simpl.
  split; [|reflexivity]. now rewrite map_id.
Qed.

(** X11.  The tuple [labels] of the notebooks names the columns of what
    [__call__] returns.  [labels.index('positive')], the class index the
    notebooks pass to [explain_text], selects the column of the
    positivities, i.e. of the sigmoids of the logits, and
    [labels.index('negative')] the column of their complements; any other
    label makes [labels.index] raise [ValueError]. *)
Theorem labels_index_the_columns (sigmoid : R -> R)
    (sentences : sentences_arg) (w : world) :
  (forall label, label <> "negative" -> label <> "positive" ->
   tuple_index labels label = Raise ValueError) /\
  (forall out w',
     rise_text.__call__ sigmoid sentences w = (Ok out, w') ->
     exists positive negative positivity,
       tuple_index labels "positive" = Ok positive /\
       tuple_index labels "negative" = Ok negative /\
       np_index_column out positive = Ok positivity /\
       np_index_column out negative = Ok (one_minus positivity) /\
       Forall2 (scored_alone sigmoid (self w))
               (ensure_batch_axis sentences) positivity) /\
  (forall out w',
     lime_text.__call__ sigmoid sentences w = (Ok out, w') ->
     exists positive negative positivity batch,
       tuple_index labels "positive" = Ok positive /\
       tuple_index labels "negative" = Ok negative /\
       np_index_column out positive = Ok positivity /\
       np_index_column out negative = Ok (one_minus positivity) /\
       numericalized_batch (self w) (tokenizer_calls w)
         (ensure_batch_axis sentences) = Some batch /\
       positivity =
         column 0 (map (sigmoid_1d sigmoid)
                       (rows (run_model (self w) (run_model_calls w) batch)))).
Proof.
  split; [|split].
  - intros label Hneg Hpos. simpl.
    rewrite !bool_decide_eq_false_2 by congruence. reflexivity.
  - intros out w' Hcall.
    apply rise_call_Ok_inv in Hcall as (positivity & Hloop & ->).
    apply loop_rise_Ok in Hloop as (new & -> & Hnew). simpl app.
    destruct (score_rows_columns (length new) new) as [Hp Hn].
    exists 1%nat, 0%nat, new. auto.
  - intros out w' Hcall.
    destruct (lime_call_spec sigmoid sentences w) as (calls & log & Hrun).
    destruct (numericalized_batch _ _ _) as [batch|] eqn:Hbatch;
      rewrite Hrun in Hcall; [|discriminate].
    injection Hcall as Hscores _.
    pose proof Hscores as Hcases.
    unfold lime_scores, np_apply_along_axis_1 in Hcases.
    destruct (fst (shape _)) as [|n] eqn:Hn; [discriminate|].
    cbv zeta in Hcases. unfold np_index_column in Hcases.
    cbn [shape rows snd fst] in Hcases.
    destruct (Nat.ltb _ _) eqn:Hcols; [|discriminate].
    rewrite lime_scores_Ok in Hscores;
      [|congruence|now apply Nat.ltb_lt].
    injection Hscores as <-.
    match goal with |- context [map score_row ?p] =>
      destruct (score_rows_columns
                  (length (rows (run_model (self w) (run_model_calls w) batch)))
                  p) as [Hp Hneg];
      exists 1%nat, 0%nat, p, batch end.
    auto 6.
Qed.

Lemma labels_index_the_columns_demo :
  rise_text.__call__ expit demo_sentences demo_world =
    (Ok demo_scores,
     snd (rise_text.__call__ expit demo_sentences demo_world)) /\
  exists positive negative positivity,
    tuple_index labels "positive" = Ok positive /\
    tuple_index labels "negative" = Ok negative /\
    np_index_column demo_scores positive = Ok positivity /\
    np_index_column demo_scores negative = Ok (one_minus positivity).
Proof.
  assert (Hcall : rise_text.__call__ expit demo_sentences demo_world =
            (Ok demo_scores,
             snd (rise_text.__call__ expit demo_sentences demo_world)))
    by (apply outcome_and_world; exact demo_rise_call).
  split; [exact Hcall|].
  destruct (proj1 (proj2 (labels_index_the_columns expit demo_sentences
                            demo_world)) demo_scores _ Hcall)
    as (positive & negative & positivity & Hp & Hn & Hcp & Hcn & _).
  exists positive, negative, positivity.
  split; [exact Hp|]. split; [exact Hn|]. split; [exact Hcp|exact Hcn].
Defined.

(** ** One sentence and its batch *)

Lemma np_float_sigmoid_single sigmoid (logits : ndarray) (logit : R) :
  rows logits = [[logit]] ->
  np_float (sigmoid_2d sigmoid logits) = Ok (sigmoid logit).
Proof. intros H. unfold np_float, sigmoid_2d. simpl. now rewrite H. Qed.

Lemma rise_call_single sigmoid (s : string) (w : world) nums logit :
  numericalized (self w) (tokenizer_calls w) s = Some nums ->
  rows (run_model (self w) (run_model_calls w) [nums]) = [[logit]] ->
  fst (rise_text.__call__ sigmoid (Str s) w) =
  Ok (NdArray (1%nat, 2%nat) [score_row (sigmoid logit)]).
Proof.
  intros Hnums Hlogit. rewrite rise_call_unfold. simpl ensure_batch_axis.
  rewrite loop_rise_cons.
  destruct (tokens_numerical_spec s w) as [log ->].
  rewrite Hnums. simpl.
  now rewrite (np_float_sigmoid_single sigmoid _ logit Hlogit).
Qed.

(** X12.  With a deterministic tokenizer, the row of a sentence in a batch
    is the row the adapter returns for that sentence alone:
    - in the RISE notebook, when the scoring function is deterministic;
    - in the LIME notebook, when the scoring function scores every
      sentence independently.
    So what else is in the batch, and where the sentence stands in it, do
    not change its scores. *)
Theorem row_of_a_sentence_is_its_own (sigmoid : R -> R)
    (sentences : sentences_arg) (w : world) :
  deterministic (tokenizer (self w)) ->
  (deterministic (run_model (self w)) ->
   forall out w',
     rise_text.__call__ sigmoid sentences w = (Ok out, w') ->
     forall (i : nat) (s : string),
       ensure_batch_axis sentences !! i = Some s ->
       exists row,
         rows out !! i = Some row /\
         fst (rise_text.__call__ sigmoid (Str s) w) =
           Ok (NdArray (1%nat, 2%nat) [row])) /\
  (forall logit,
     scores_independently (self w) logit ->
     forall out w',
       lime_text.__call__ sigmoid sentences w = (Ok out, w') ->
       forall (i : nat) (s : string),
         ensure_batch_axis sentences !! i = Some s ->
         exists row,
           rows out !! i = Some row /\
           fst (lime_text.__call__ sigmoid (Str s) w) =
             Ok (NdArray (1%nat, 2%nat) [row])).
Proof.
  intros Htok. split.
  - intros Hrun out w' Hcall i s Hi.
    apply rise_call_Ok_inv in Hcall as (positivity & Hloop & ->).
    apply loop_rise_Ok in Hloop as (new & -> & Hnew). simpl app.
    destruct (Forall2_lookup_l _ _ _ _ _ Hnew Hi)
      as (p & Hp & nums & history & logit & [h Henc] & Hlogit & ->).
    exists (score_row (sigmoid logit)). split.
    + simpl. change (map score_row new) with (score_row <$> new).
      now rewrite list_lookup_fmap, Hp.
    + apply (rise_call_single sigmoid s w nums logit).
      * now rewrite (numericalized_deterministic _ _ h) by exact Htok.
      * now rewrite (Hrun _ history).
  - intros logit Hind out w' Hcall i s Hi.
    assert (Hne : ensure_batch_axis sentences <> []).
    { intros Hnil. rewrite Hnil in Hi. discriminate. }
    destruct (lime_call_independent sigmoid logit (ensure_batch_axis sentences)
                w Hind Hne) as (calls & log & Hrun).
    assert (Hsame : lime_text.__call__ sigmoid
                      (Seq (ensure_batch_axis sentences)) w =
                    lime_text.__call__ sigmoid sentences w)
      by (now destruct sentences).
    rewrite Hsame, Hcall in Hrun.
    destruct (numericalized_batch _ _ _) as [batch|] eqn:Hbatch;
      [|discriminate].
    injection Hrun as -> _.
    apply numericalized_batch_encodes in Hbatch.
    destruct (Forall2_lookup_l _ _ _ _ _ Hbatch Hi) as (nums & Hnums & h & Henc).
    exists (score_row (sigmoid (logit nums))). split.
    + simpl. change (map ?f batch) with (f <$> batch).
      now rewrite list_lookup_fmap, Hnums.
    + assert (H1 : [s] <> []) by discriminate.
      destruct (lime_call_independent sigmoid logit [s] w Hind H1)
        as (calls1 & log1 & Hone).
      simpl in Hone.
      rewrite (numericalized_deterministic _ _ h) in Hone by exact Htok.
      rewrite Henc in Hone.
      change (lime_text.__call__ sigmoid (Str s) w)
        with (lime_text.__call__ sigmoid (Seq [s]) w).
      now rewrite Hone.
Qed.

Lemma row_of_a_sentence_is_its_own_demo :
  deterministic (tokenizer (self demo_world)) /\
  deterministic (run_model (self demo_world)) /\
  rise_text.__call__ expit demo_sentences demo_world =
    (Ok demo_scores,
     snd (rise_text.__call__ expit demo_sentences demo_world)) /\
  exists row,
    rows demo_scores !! 1%nat = Some row /\
    fst (rise_text.__call__ expit (Str "bad") demo_world) =
      Ok (NdArray (1%nat, 2%nat) [row]).
Proof.
  assert (Hcall : rise_text.__call__ expit demo_sentences demo_world =
            (Ok demo_scores,
             snd (rise_text.__call__ expit demo_sentences demo_world)))
    by (apply outcome_and_world; exact demo_rise_call).
  split; [exact demo_tokenizer_deterministic|].
  split; [exact demo_run_model_deterministic|].
  split; [exact Hcall|].
  exact (proj1 (row_of_a_sentence_is_its_own expit demo_sentences demo_world
                  demo_tokenizer_deterministic)
           demo_run_model_deterministic demo_scores _ Hcall 1%nat "bad"
           eq_refl).
Defined.
